(** * AI Tutor chat front end (src/index.tsx): model and verified properties

    The page script is embedded as follows.

    - A JavaScript string is the list of its UTF-16 code units ([list N]).
    - The four [String.prototype.replace] calls of the markdown conversion
      are modelled by small backtracking matchers, one per regular
      expression, and a left-to-right global replacement loop.
    - The DOM nodes the script touches and the fields of the [AIChat]
      object form one record, [Page].  Every function of the script is a
      function on [Page].
    - [sendMessage] is asynchronous.  It is cut at its suspension points
      into the synchronous prefix, the body of the [for await] loop, the
      [catch] clause and the [finally] clause; an event machine ([step],
      [run]) runs one handler to completion per event, which is how the
      browser schedules them.

    Scroll position and keyboard focus are not part of the model. *)

From Stdlib Require Import NArith String Ascii.
From stdpp Require Import base option list.

Local Open Scope N_scope.

(** ** Strings *)

Abbreviation jsstring := (list N).

(** An ASCII literal as a JavaScript string. *)
Fixpoint u (s : String.string) : jsstring :=
  match s with
  | EmptyString => []
  | String c s' => N_of_ascii c :: u s'
  end.
Arguments u s%_string.

Definition STAR : N := 42.      (* '*' *)
Definition BACKTICK : N := 96.  (* '`' *)
Definition LF : N := 10.
Definition CR : N := 13.

(** LineTerminator of ECMAScript: what [.] does not match (no [s] flag). *)
Definition isLineTerminator (c : N) : bool :=
  (c =? LF) || (c =? CR) || (c =? 8232) || (c =? 8233).

(** WhiteSpace and LineTerminator of ECMAScript: what [trim] strips. *)
Definition isTrimmed (c : N) : bool :=
  (c =? 9) || (c =? 11) || (c =? 12) || (c =? 32) || (c =? 160) ||
  (c =? 5760) || ((8192 <=? c) && (c <=? 8202)) || (c =? 8239) ||
  (c =? 8287) || (c =? 12288) || (c =? 65279) || isLineTerminator c.

Fixpoint trimStart (s : jsstring) : jsstring :=
  match s with
  | c :: s' => if isTrimmed c then trimStart s' else s
  | [] => []
  end.

Definition trimEnd (s : jsstring) : jsstring := rev (trimStart (rev s)).

(** [String.prototype.trim]. *)
Definition trim (s : jsstring) : jsstring := trimEnd (trimStart s).

(** Truthiness of a string: the empty string is the only falsy one. *)
Definition truthy (s : jsstring) : bool :=
  match s with [] => false | _ :: _ => true end.

(** ** Regular expressions

    A matcher is tried at one position of the subject.  It answers with
    the text of capture group 1 and the input left after the match. *)

Definition matcher := jsstring -> option (jsstring * jsstring).

(** A literal: succeeds with the rest of the input. *)
Fixpoint lit (l s : jsstring) : option jsstring :=
  match l, s with
  | [], _ => Some s
  | a :: l', b :: s' => if a =? b then lit l' s' else None
  | _ :: _, [] => None
  end.

(** [(C*?)K] for a one-character class [C] and a continuation [K]: the
    lazy star tries [K] first and takes one more character only when
    [K] fails. *)
Fixpoint lazyStar (p : N -> bool) (k : jsstring -> option jsstring)
    (s : jsstring) : option (jsstring * jsstring) :=
  match k s with
  | Some rest => Some ([], rest)
  | None =>
      match s with
      | c :: s' =>
          if p c then
            match lazyStar p k s' with
            | Some (cap, rest) => Some (c :: cap, rest)
            | None => None
            end
          else None
      | [] => None
      end
  end.

(** [(C* )K]: the greedy star takes a character whenever it can and
    falls back to [K] at the current position when the longer attempt
    fails. *)
Fixpoint greedyStar (p : N -> bool) (k : jsstring -> option jsstring)
    (s : jsstring) : option (jsstring * jsstring) :=
  let here := match k s with Some rest => Some ([], rest) | None => None end in
  match s with
  | c :: s' =>
      if p c then
        match greedyStar p k s' with
        | Some (cap, rest) => Some (c :: cap, rest)
        | None => here
        end
      else here
  | [] => here
  end.

(** [(C+)K]. *)
Definition greedyPlus (p : N -> bool) (k : jsstring -> option jsstring)
    (s : jsstring) : option (jsstring * jsstring) :=
  match s with
  | c :: s' =>
      if p c then
        match greedyStar p k s' with
        | Some (cap, rest) => Some (c :: cap, rest)
        | None => None
        end
      else None
  | [] => None
  end.

Definition dot (c : N) : bool := negb (isLineTerminator c).
Definition notBacktick (c : N) : bool := negb (c =? BACKTICK).

(** [/\*\*(.*?)\*\*/] *)
Definition boldRe : matcher := fun s =>
  match lit [STAR; STAR] s with
  | Some s1 => lazyStar dot (lit [STAR; STAR]) s1
  | None => None
  end.

(** [/\*(.*?)\*/] *)
Definition italicRe : matcher := fun s =>
  match lit [STAR] s with
  | Some s1 => lazyStar dot (lit [STAR]) s1
  | None => None
  end.

(** [/`([^`]+)`/] *)
Definition codeRe : matcher := fun s =>
  match lit [BACKTICK] s with
  | Some s1 => greedyPlus notBacktick (lit [BACKTICK]) s1
  | None => None
  end.

(** [/(\r\n|\n|\r)/]: the alternatives are tried in the order written. *)
Definition newlineRe : matcher := fun s =>
  match lit [CR; LF] s with
  | Some rest => Some ([CR; LF], rest)
  | None =>
      match lit [LF] s with
      | Some rest => Some ([LF], rest)
      | None =>
          match lit [CR] s with
          | Some rest => Some ([CR], rest)
          | None => None
          end
      end
  end.

(** [subject.replace(re, template)] with the [g] flag: the subject is
    scanned from the left; where the expression matches, the template
    is emitted and the scan resumes after the match; elsewhere one code
    unit is copied.  The four expressions never match the empty string,
    so the scan always advances; [fuel] only makes the recursion
    structural ([replaceFrom_fuel] shows that it never runs out). *)
Fixpoint replaceFrom (fuel : nat) (re : matcher)
    (template : jsstring -> jsstring) (s : jsstring) : jsstring :=
  match fuel with
  | O => []
  | S fuel' =>
      match s with
      | [] => []
      | c :: s' =>
          match re s with
          | Some (cap, rest) => template cap ++ replaceFrom fuel' re template rest
          | None => c :: replaceFrom fuel' re template s'
          end
      end
  end.

Definition replaceAll (re : matcher) (template : jsstring -> jsstring)
    (s : jsstring) : jsstring :=
  replaceFrom (S (length s)) re template s.

(** The replacement templates: [$1] stands for capture group 1. *)
Definition strongTpl (g1 : jsstring) : jsstring := u "<strong>" ++ g1 ++ u "</strong>".
Definition emTpl (g1 : jsstring) : jsstring := u "<em>" ++ g1 ++ u "</em>".
Definition codeTpl (g1 : jsstring) : jsstring := u "<code>" ++ g1 ++ u "</code>".
Definition brTpl (_ : jsstring) : jsstring := u "<br>".

Definition replaceBold : jsstring -> jsstring := replaceAll boldRe strongTpl.
Definition replaceItalics : jsstring -> jsstring := replaceAll italicRe emTpl.
Definition replaceCode : jsstring -> jsstring := replaceAll codeRe codeTpl.
Definition replaceNewlines : jsstring -> jsstring := replaceAll newlineRe brTpl.

(** ** The page and the [AIChat] object *)

Inductive Sender := user | ai.

(** The class an entry of the transcript carries next to [message]. *)
Inductive MessageClass := UserMessage | AiMessage | ErrorMessage.

Definition senderClass (sender : Sender) : MessageClass :=
  match sender with user => UserMessage | ai => AiMessage end.

(** How the content of an entry was set. *)
Inductive Content :=
| InnerHTML (html : jsstring)
| TextContent (text : jsstring).

Record Element := { cls : MessageClass; content : Content }.

Record AttachedFile := { mimeType : jsstring; data : jsstring; name : jsstring }.

(** A file offered by the file picker, with what
    [FileReader.readAsDataURL] will leave in [reader.result] for it
    ([None]: the read failed and the result is [null]). *)
Record File := { file_name : jsstring; file_type : jsstring;
                 file_dataUrl : option jsstring }.

Inductive Part :=
| InlineData (mime payload : jsstring)
| TextPart (text : jsstring).

(** The chat session created by the constructor. *)
Record Chat := { model : jsstring; systemInstruction : jsstring }.

(** One invocation of [chat.sendMessageStream], as a test double of the
    session records it: the parts received and what the attachment
    slot, the file input and the preview held when the call was made. *)
Record Request := {
  parts : list Part;
  slotAtCall : option AttachedFile;
  inputAtCall : option File;
  previewAtCall : option jsstring }.

Record Page := {
  loading : bool;                     (* app has class 'loading' *)
  promptDisabled : bool;              (* promptInput.disabled *)
  promptValue : jsstring;             (* promptInput.value *)
  messages : list Element;            (* children of #messages, in order *)
  fileInputFile : option File;        (* fileInput.files[0]; None when fileInput.value is '' *)
  filePreview : option jsstring;      (* None: #file-preview-container is empty;
                                         Some n: it shows n and the remove button *)
  chat : option Chat;                 (* this.chat; None while undefined *)
  attachedFile : option AttachedFile; (* this.attachedFile; None is null *)
  fileChangeListener : bool;          (* 'change' listener installed on fileInput *)
  requests : list Request }.          (* calls the chat session has received *)

Definition set_loading (b : bool) (p : Page) : Page :=
  {| loading := b; promptDisabled := promptDisabled p; promptValue := promptValue p;
     messages := messages p; fileInputFile := fileInputFile p; filePreview := filePreview p;
     chat := chat p; attachedFile := attachedFile p;
     fileChangeListener := fileChangeListener p; requests := requests p |}.

Definition set_promptDisabled (b : bool) (p : Page) : Page :=
  {| loading := loading p; promptDisabled := b; promptValue := promptValue p;
     messages := messages p; fileInputFile := fileInputFile p; filePreview := filePreview p;
     chat := chat p; attachedFile := attachedFile p;
     fileChangeListener := fileChangeListener p; requests := requests p |}.

Definition set_promptValue (v : jsstring) (p : Page) : Page :=
  {| loading := loading p; promptDisabled := promptDisabled p; promptValue := v;
     messages := messages p; fileInputFile := fileInputFile p; filePreview := filePreview p;
     chat := chat p; attachedFile := attachedFile p;
     fileChangeListener := fileChangeListener p; requests := requests p |}.

Definition set_messages (m : list Element) (p : Page) : Page :=
  {| loading := loading p; promptDisabled := promptDisabled p; promptValue := promptValue p;
     messages := m; fileInputFile := fileInputFile p; filePreview := filePreview p;
     chat := chat p; attachedFile := attachedFile p;
     fileChangeListener := fileChangeListener p; requests := requests p |}.

Definition set_fileInputFile (f : option File) (p : Page) : Page :=
  {| loading := loading p; promptDisabled := promptDisabled p; promptValue := promptValue p;
     messages := messages p; fileInputFile := f; filePreview := filePreview p;
     chat := chat p; attachedFile := attachedFile p;
     fileChangeListener := fileChangeListener p; requests := requests p |}.

Definition set_filePreview (v : option jsstring) (p : Page) : Page :=
  {| loading := loading p; promptDisabled := promptDisabled p; promptValue := promptValue p;
     messages := messages p; fileInputFile := fileInputFile p; filePreview := v;
     chat := chat p; attachedFile := attachedFile p;
     fileChangeListener := fileChangeListener p; requests := requests p |}.

Definition set_chat (c : option Chat) (p : Page) : Page :=
  {| loading := loading p; promptDisabled := promptDisabled p; promptValue := promptValue p;
     messages := messages p; fileInputFile := fileInputFile p; filePreview := filePreview p;
     chat := c; attachedFile := attachedFile p;
     fileChangeListener := fileChangeListener p; requests := requests p |}.

Definition set_attachedFile (a : option AttachedFile) (p : Page) : Page :=
  {| loading := loading p; promptDisabled := promptDisabled p; promptValue := promptValue p;
     messages := messages p; fileInputFile := fileInputFile p; filePreview := filePreview p;
     chat := chat p; attachedFile := a;
     fileChangeListener := fileChangeListener p; requests := requests p |}.

Definition set_fileChangeListener (b : bool) (p : Page) : Page :=
  {| loading := loading p; promptDisabled := promptDisabled p; promptValue := promptValue p;
     messages := messages p; fileInputFile := fileInputFile p; filePreview := filePreview p;
     chat := chat p; attachedFile := attachedFile p;
     fileChangeListener := b; requests := requests p |}.

Definition set_requests (r : list Request) (p : Page) : Page :=
  {| loading := loading p; promptDisabled := promptDisabled p; promptValue := promptValue p;
     messages := messages p; fileInputFile := fileInputFile p; filePreview := filePreview p;
     chat := chat p; attachedFile := attachedFile p;
     fileChangeListener := fileChangeListener p; requests := r |}.

(** [showLoading] *)
Definition showLoading (p : Page) : Page :=
  set_promptDisabled true (set_loading true p).

(** [hideLoading] *)
Definition hideLoading (p : Page) : Page :=
  set_promptDisabled false (set_loading false p).

(** [removeFile] *)
Definition removeFile (p : Page) : Page :=
  set_filePreview None (set_fileInputFile None (set_attachedFile None p)).

(** [renderFilePreview] *)
Definition renderFilePreview (p : Page) : Page :=
  match attachedFile p with
  | None => p
  | Some f => set_filePreview (Some (name f)) p
  end.

(** [renderMessage]: the new entry is appended; the handle returned is
    its position in the transcript, which never changes afterwards
    because entries are only ever appended. *)
Definition renderMessage (message : jsstring) (sender : Sender) (p : Page)
    : Page * nat :=
  let htmlContent :=
    replaceNewlines (replaceCode (replaceItalics (replaceBold message))) in
  let messageElement :=
    {| cls := senderClass sender; content := InnerHTML htmlContent |} in
  (set_messages (messages p ++ [messageElement]) p, length (messages p)).

(** [renderError] *)
Definition renderError (message : jsstring) (p : Page) : Page :=
  let errorElement :=
    {| cls := ErrorMessage; content := TextContent (u "Error: " ++ message) |} in
  hideLoading (set_messages (messages p ++ [errorElement]) p).

(** [element.innerHTML = html] on the entry behind a handle. *)
Definition setInnerHTML (h : nat) (html : jsstring) (p : Page) : Page :=
  set_messages
    (alter (fun e => {| cls := cls e; content := InnerHTML html |}) h (messages p)) p.

(** [initialize] *)
Definition initialize (p : Page) : Page :=
  let '(p, _) :=
    renderMessage
      (u "Hello! I'm your AI Tutor from riteshacademy. Ask me anything about Power BI, SQL, Python, ML, and Advanced Excel. You can also attach a CSV or Excel file!")
      ai p in
  set_fileChangeListener true p.

Definition theChat : Chat :=
  {| model := u "gemini-2.5-flash";
     systemInstruction := u "You are a friendly and expert AI tutor from riteshacademy, specializing in Power BI, SQL, Python for data analysis, Machine Learning, and Advanced Excel. When a user uploads a file (like a CSV or Excel), analyze its structure (columns, sample data) to provide context-aware help, such as generating complex formulas, writing scripts, or explaining concepts relevant to the data. Explain concepts clearly and concisely, as if you are teaching a beginner. Use analogies and simple examples. Format your responses using markdown." |}.

(** [process.env.API_KEY] is falsy when it is undefined or empty. *)
Definition keyPresent (apiKey : option jsstring) : bool :=
  match apiKey with Some k => truthy k | None => false end.

(** [new AIChat()] on the page as loaded.  The fields start as declared:
    [attachedFile] is [null], [chat] is not assigned, nothing listens
    and the session has received nothing. *)
Definition construct (apiKey : option jsstring) (dom : Page) : Page :=
  let p := set_requests []
             (set_fileChangeListener false
               (set_attachedFile None (set_chat None dom))) in
  if negb (keyPresent apiKey) then
    renderError (u "API_KEY environment variable not set.") p
  else
    initialize (set_chat (Some theChat) p).

(** ** File attachment *)

Definition COMMA : N := 44.

(** [s.indexOf(',')] followed by [s.substring(i + 1)]: the text after
    the first comma, the whole of [s] when there is none ([indexOf]
    answers -1 and the substring starts at 0). *)
Fixpoint afterComma (s : jsstring) : option jsstring :=
  match s with
  | [] => None
  | c :: s' => if c =? COMMA then Some s' else afterComma s'
  end.

Definition base64Of (dataUrl : jsstring) : jsstring :=
  match afterComma dataUrl with Some d => d | None => dataUrl end.

(** [reader.onloadend] of the reader [handleFileChange] started for
    [file].  With a [null] result, [dataUrl.substring] throws in the
    callback and nothing is assigned. *)
Definition onloadend (file : File) (p : Page) : Page :=
  match file_dataUrl file with
  | None => p
  | Some dataUrl =>
      let base64Data := base64Of dataUrl in
      renderFilePreview
        (set_attachedFile
           (Some {| name := file_name file; mimeType := file_type file;
                    data := base64Data |}) p)
  end.

(** ** Sending *)

(** What a [throw] or a rejected promise carries. *)
Inductive Thrown :=
| ErrorObject (message : jsstring)   (* instanceof Error *)
| OtherValue.                        (* anything else *)

(** The message of the [TypeError] raised by [this.chat.sendMessageStream]
    while [this.chat] is undefined.  The wording is the engine's (V8's is
    used here); no property below depends on it. *)
Definition undefinedChatMessage : jsstring :=
  u "Cannot read properties of undefined (reading 'sendMessageStream')".

Definition isNull {A} (o : option A) : bool :=
  match o with None => true | Some _ => false end.

(** [sendMessage] up to the [try]: [None] is the early [return] of the
    guard; otherwise the page as it stands when the [try] block is
    entered and the [contents] array. *)
Definition sendMessage_begin (message : jsstring) (p : Page)
    : option (Page * list Part) :=
  if negb (truthy (trim message)) && isNull (attachedFile p) then None
  else
    let message :=
      if negb (truthy (trim message)) then
        match attachedFile p with
        | Some f => u "Analyze this file: " ++ name f
        | None => message
        end
      else message in
    let p := showLoading p in
    let '(p, _) := renderMessage message user p in
    let p := set_promptValue [] p in
    let contents :=
      match attachedFile p with
      | Some f => [InlineData (mimeType f) (data f)]
      | None => []
      end ++ [TextPart message] in
    let p := removeFile p in
    Some (p, contents).

(** The session's [sendMessageStream] as a test double: it notes the
    parts and the attachment state it is called in. *)
Definition callSendMessageStream (contents : list Part) (p : Page) : Page :=
  set_requests
    (requests p ++ [{| parts := contents; slotAtCall := attachedFile p;
                       inputAtCall := fileInputFile p;
                       previewAtCall := filePreview p |}]) p.

(** The variables of one running [sendMessage]. *)
Record Locals := { aiMessageElement : option nat; buffer : jsstring }.

(** Body of the [for await] loop for one chunk. *)
Definition sendMessage_chunk (text : jsstring) (l : Locals) (p : Page)
    : Page * Locals :=
  let buffer := buffer l ++ text in
  let '(p, aiMessageElement) :=
    match aiMessageElement l with
    | None => let '(p', h) := renderMessage (u "...") ai p in (p', Some h)
    | Some h => (p, Some h)
    end in
  let htmlContent :=
    replaceNewlines (replaceCode (replaceItalics (replaceBold buffer))) in
  let p :=
    match aiMessageElement with
    | Some h => setInnerHTML h htmlContent p
    | None => p
    end in
  (p, {| aiMessageElement := aiMessageElement; buffer := buffer |}).

(** The [catch] clause. *)
Definition sendMessage_catch (error : Thrown) (p : Page) : Page :=
  renderError
    match error with
    | ErrorObject message => message
    | OtherValue => u "An unknown error occurred."
    end p.

(** The [finally] clause. *)
Definition sendMessage_finally (p : Page) : Page := hideLoading p.

(** ** The event machine *)

(** Where a call of [sendMessage] that entered its [try] block stands. *)
Inductive Send :=
| Awaiting                (* at [await this.chat.sendMessageStream] *)
| Streaming (l : Locals)  (* inside [for await], between two chunks *)
| Settled.                (* returned *)

Record World := {
  page : Page;
  sends : list Send;            (* the calls of [sendMessage], oldest first *)
  readers : list (option File)  (* the FileReaders; [Some f] while reading [f] *) }.

Definition set_page (p : Page) (w : World) : World :=
  {| page := p; sends := sends w; readers := readers w |}.

Inductive Event :=
| Input (text : jsstring)       (* the prompt field is edited *)
| Submit                        (* 'submit' on the form *)
| PickFile (f : option File)    (* 'change' on the file input *)
| LoadEnd (r : nat)             (* [onloadend] of reader [r] *)
| ClickRemove                   (* click on the remove button of the preview *)
| Resolved (i : nat)            (* the stream of send [i] is handed over *)
| Chunk (i : nat) (text : jsstring)  (* the stream of send [i] yields *)
| Exhausted (i : nat)           (* the stream of send [i] ends *)
| Throws (i : nat) (error : Thrown). (* the call or the stream of send [i] fails *)

(** The submit listener: [aiChat.sendMessage(promptInput.value)], run
    until it returns or suspends at the first [await]. *)
Definition submit (w : World) : World :=
  match sendMessage_begin (promptValue (page w)) (page w) with
  | None => w
  | Some (p, contents) =>
      match chat p with
      | None =>
          {| page := sendMessage_finally
                       (sendMessage_catch (ErrorObject undefinedChatMessage) p);
             sends := sends w ++ [Settled];
             readers := readers w |}
      | Some _ =>
          {| page := callSendMessageStream contents p;
             sends := sends w ++ [Awaiting];
             readers := readers w |}
      end
  end.

(** [handleFileChange], run when the listener is installed. *)
Definition handleFileChange (w : World) : World :=
  match fileInputFile (page w) with
  | None => w
  | Some file =>
      {| page := page w; sends := sends w; readers := readers w ++ [Some file] |}
  end.

Definition step (w : World) (e : Event) : World :=
  match e with
  | Input text => set_page (set_promptValue text (page w)) w
  | Submit => submit w
  | PickFile f =>
      let w := set_page (set_fileInputFile f (page w)) w in
      if fileChangeListener (page w) then handleFileChange w else w
  | LoadEnd r =>
      match readers w !! r with
      | Some (Some file) =>
          {| page := onloadend file (page w); sends := sends w;
             readers := <[r := None]> (readers w) |}
      | _ => w
      end
  | ClickRemove =>
      match filePreview (page w) with
      | Some _ => set_page (removeFile (page w)) w
      | None => w
      end
  | Resolved i =>
      match sends w !! i with
      | Some Awaiting =>
          {| page := page w;
             sends := <[i := Streaming {| aiMessageElement := None; buffer := [] |}]> (sends w);
             readers := readers w |}
      | _ => w
      end
  | Chunk i text =>
      match sends w !! i with
      | Some (Streaming l) =>
          let '(p, l') := sendMessage_chunk text l (page w) in
          {| page := p; sends := <[i := Streaming l']> (sends w); readers := readers w |}
      | _ => w
      end
  | Exhausted i =>
      match sends w !! i with
      | Some (Streaming _) =>
          {| page := sendMessage_finally (page w);
             sends := <[i := Settled]> (sends w); readers := readers w |}
      | _ => w
      end
  | Throws i error =>
      match sends w !! i with
      | Some Awaiting | Some (Streaming _) =>
          {| page := sendMessage_finally (sendMessage_catch error (page w));
             sends := <[i := Settled]> (sends w); readers := readers w |}
      | _ => w
      end
  end.

Definition run (w : World) (es : list Event) : World := fold_left step es w.

(** The page once the script has been loaded with [apiKey] in the
    environment: nothing is in flight. *)
Definition boot (apiKey : option jsstring) (dom : Page) : World :=
  {| page := construct apiKey dom; sends := []; readers := [] |}.

(** What the session answers to one call. *)
Inductive Outcome := Completes | Fails (error : Thrown).

Inductive Response :=
| Rejects (error : Thrown)                       (* the call itself fails *)
| Streams (chunks : list jsstring) (o : Outcome). (* a stream, and how it ends *)

Definition finish (i : nat) (o : Outcome) : Event :=
  match o with Completes => Exhausted i | Fails error => Throws i error end.

(** The events of one send that runs undisturbed: the submit, then what
    the session delivers for it.  The send started by a submit in [w] is
    number [length (sends w)]. *)
Definition sendScript (i : nat) (r : Response) : list Event :=
  Submit ::
  match r with
  | Rejects error => [Throws i error]
  | Streams chunks o => Resolved i :: map (Chunk i) chunks ++ [finish i o]
  end.

(** A page as the markup delivers it: empty transcript, enabled empty
    prompt, nothing selected. *)
Definition blankPage : Page :=
  {| loading := false; promptDisabled := false; promptValue := [];
     messages := []; fileInputFile := None; filePreview := None;
     chat := None; attachedFile := None; fileChangeListener := false;
     requests := [] |}.

(** ** Vocabulary of the statements *)

(** The markdown conversion, as the chain of four [replace] calls that
    [renderMessage] and the streaming loop both spell out. *)
Definition formatter (s : jsstring) : jsstring :=
  replaceNewlines (replaceCode (replaceItalics (replaceBold s))).

(** A matcher that always takes at least one code unit. *)
Definition consuming (re : matcher) : Prop :=
  forall s cap rest, re s = Some (cap, rest) -> (length rest < length s)%nat.

(** A code unit that is no marker: neither a star nor a backtick nor a
    line terminator. *)
Definition plain (c : N) : bool :=
  negb (c =? STAR) && negb (c =? BACKTICK) && dot c.

(** The three kinds of transcript entry. *)
Definition userEntry (message : jsstring) : Element :=
  {| cls := UserMessage; content := InnerHTML (formatter message) |}.
Definition aiEntry (text : jsstring) : Element :=
  {| cls := AiMessage; content := InnerHTML (formatter text) |}.
Definition errorEntry (message : jsstring) : Element :=
  {| cls := ErrorMessage; content := TextContent (u "Error: " ++ message) |}.

(** The guard of [sendMessage] lets the call through. *)
Definition passesGuard (message : jsstring) (p : Page) : bool :=
  truthy (trim message) || negb (isNull (attachedFile p)).

(** The message a call that passed the guard goes on with. *)
Definition messageSent (message : jsstring) (p : Page) : jsstring :=
  match attachedFile p with
  | Some f => if truthy (trim message) then message
              else u "Analyze this file: " ++ name f
  | None => message
  end.

(** The parts a call that passed the guard submits. *)
Definition partsSent (message : jsstring) (p : Page) : list Part :=
  match attachedFile p with
  | Some f => [InlineData (mimeType f) (data f);
               TextPart (messageSent message p)]
  | None => [TextPart (messageSent message p)]
  end.

(** The request the session receives from such a call. *)
Definition requestSent (message : jsstring) (p : Page) : Request :=
  {| parts := partsSent message p; slotAtCall := None;
     inputAtCall := None; previewAtCall := None |}.

(** The AI entry a stream has produced so far: none before the first
    chunk, afterwards one, showing the chunks received. *)
Definition aiEntries (chunks : list jsstring) : list Element :=
  match chunks with
  | [] => []
  | _ :: _ => [aiEntry (concat chunks)]
  end.

(** The error entry an outcome leaves. *)
Definition thrownText (error : Thrown) : jsstring :=
  match error with
  | ErrorObject message => message
  | OtherValue => u "An unknown error occurred."
  end.

Definition errorEntries (o : Outcome) : list Element :=
  match o with
  | Completes => []
  | Fails error => [errorEntry (thrownText error)]
  end.

(** What a response adds to the transcript after the user entry. *)
Definition responseEntries (r : Response) : list Element :=
  match r with
  | Rejects error => [errorEntry (thrownText error)]
  | Streams chunks o => aiEntries chunks ++ errorEntries o
  end.

(** The AI entry of a response: what its chunks leave. *)
Definition chunkEntries (r : Response) : list Element :=
  match r with
  | Rejects _ => []
  | Streams chunks _ => aiEntries chunks
  end.

(** The value a response fails with, if it fails. *)
Definition failure (r : Response) : option Thrown :=
  match r with
  | Rejects error => Some error
  | Streams _ (Fails error) => Some error
  | Streams _ Completes => None
  end.

Definition isAi (e : Element) : bool :=
  match cls e with AiMessage => true | _ => false end.

Definition isError (e : Element) : bool :=
  match cls e with ErrorMessage => true | _ => false end.

Definition countAi (l : list Element) : nat := length (List.filter isAi l).
Definition countError (l : list Element) : nat := length (List.filter isError l).

(** The entry the constructor renders when the key is missing. *)
Definition configError : Element :=
  errorEntry (u "API_KEY environment variable not set.").

(** What a send can add to the transcript while no session exists: a
    user entry, or the report of the failed call. *)
Definition deadEntry (e : Element) : Prop :=
  cls e = UserMessage \/ e = errorEntry undefinedChatMessage.

(** A world loaded without a key, however it got on from there. *)
Definition keyless (dom : Page) (w : World) : Prop :=
  chat (page w) = None /\ requests (page w) = [] /\
  attachedFile (page w) = None /\ fileChangeListener (page w) = false /\
  Forall (eq Settled) (sends w) /\ readers w = [] /\
  exists tail,
    messages (page w) = messages dom ++ [configError] ++ tail /\
    Forall deadEntry tail.

(** The entry a send writes to, and what it has received so far. *)
Definition handleOf (s : Send) : option nat :=
  match s with Streaming l => aiMessageElement l | _ => None end.

Definition bufferOf (s : Send) : jsstring :=
  match s with Streaming l => buffer l | _ => [] end.

(** Every send that holds an entry finds there the rendering of what it
    has received, and no two sends hold the same entry. *)
Definition coherent (w : World) : Prop :=
  (forall i s h,
     sends w !! i = Some s -> handleOf s = Some h ->
     messages (page w) !! h = Some (aiEntry (bufferOf s))) /\
  (forall i j si sj h,
     sends w !! i = Some si -> sends w !! j = Some sj ->
     handleOf si = Some h -> handleOf sj = Some h -> i = j).

(** A request made while the attachment slot, the file input and the
    preview were empty. *)
Definition madeAfterClearing (r : Request) : Prop :=
  slotAtCall r = None /\ inputAtCall r = None /\ previewAtCall r = None.

(** The files held by the attachment slot. *)
Definition attachments (p : Page) : list AttachedFile :=
  match attachedFile p with Some f => [f] | None => [] end.

(** Sample worlds for the instances below: a page loaded with a key,
    with [hi] typed into the prompt; the same with a file attached and
    an empty prompt; a page where a file has been picked but not read
    yet; a prompt holding one space. *)
Definition sampleFile : File :=
  {| file_name := u "sales.csv"; file_type := u "text/csv";
     file_dataUrl := Some (u "data:text/csv;base64,YSxiCjEsMgo=") |}.

Definition otherFile : File :=
  {| file_name := u "notes.txt"; file_type := u "text/plain";
     file_dataUrl := Some (u "data:text/plain;base64,aGk=") |}.

Definition typedWorld : World :=
  run (boot (Some (u "key")) blankPage) [Input (u "hi")].

Definition attachedWorld : World :=
  run (boot (Some (u "key")) blankPage) [PickFile (Some sampleFile); LoadEnd 0].

Definition pickedWorld : World :=
  run (boot (Some (u "key")) blankPage) [PickFile (Some sampleFile); Input (u "hi")].

Definition spaceWorld : World :=
  run (boot (Some (u "key")) blankPage) [Input (u " ")].

(** A code unit none of the four expressions can start on: neither a
    star nor a backtick nor a line feed nor a carriage return. *)
Definition markerFree (c : N) : bool :=
  negb (c =? STAR) && negb (c =? BACKTICK) && negb (c =? LF) && negb (c =? CR).

(** A line feed or a carriage return. *)
Definition isBreak (c : N) : bool := (c =? LF) || (c =? CR).

(** The preview names the attached file, and shows nothing when the
    slot is empty. *)
Definition previewInSync (p : Page) : Prop :=
  filePreview p = name <$> attachedFile p.

(** The attachment a completed read of [f] with result [dataUrl] makes. *)
Definition attachmentOf (f : File) (dataUrl : jsstring) : AttachedFile :=
  {| mimeType := file_type f; data := base64Of dataUrl; name := file_name f |}.

Definition isSubmit (e : Event) : bool :=
  match e with Submit => true | _ => false end.

(** The number of submits among some events. *)
Definition submits (es : list Event) : nat := length (List.filter isSubmit es).

(** The text of the welcome message. *)
Definition welcomeText : jsstring :=
  u "Hello! I'm your AI Tutor from riteshacademy. Ask me anything about Power BI, SQL, Python, ML, and Advanced Excel. You can also attach a CSV or Excel file!".

(** No send holds entry [h]. *)
Definition unheld (h : nat) (w : World) : Prop :=
  forall i s, sends w !! i = Some s -> handleOf s <> Some h.

(** * Properties *)

(** ** The replacement loop never runs out of fuel *)

Lemma lit_length l s rest :
  lit l s = Some rest -> length s = (length l + length rest)%nat.
Proof.
  revert s. induction l as [|a l IH]; intros s H; simpl in H.
  - by injection H as <-.
  - destruct s as [|b s]; [congruence|].
    destruct (a =? b); [|congruence]. apply IH in H. simpl. lia.
Qed.

Lemma lazyStar_length p k s cap rest :
  (forall s' r, k s' = Some r -> (length r <= length s')%nat) ->
  lazyStar p k s = Some (cap, rest) -> (length rest <= length s)%nat.
Proof.
  intros Hk. revert cap. induction s as [|c s IH]; intros cap H; simpl in H.
  - destruct (k []) eqn:E; [|congruence].
    injection H as _ <-. by apply Hk in E.
  - destruct (k (c :: s)) eqn:E.
    + injection H as _ <-. by apply Hk in E.
    + destruct (p c); [|congruence].
      destruct (lazyStar p k s) as [[cap' rest']|]; [|congruence].
      injection H as _ <-. specialize (IH _ eq_refl). simpl. lia.
Qed.

Lemma greedyStar_length p k s cap rest :
  (forall s' r, k s' = Some r -> (length r <= length s')%nat) ->
  greedyStar p k s = Some (cap, rest) -> (length rest <= length s)%nat.
Proof.
  intros Hk. revert cap. induction s as [|c s IH]; intros cap H; simpl in H.
  - destruct (k []) eqn:E; [|congruence].
    injection H as _ <-. by apply Hk in E.
  - assert (Hhere : forall cap0,
      match k (c :: s) with Some r => Some (@nil N, r) | None => None end
        = Some (cap0, rest) -> (length rest <= length (c :: s))%nat).
    { intros cap0 H0. destruct (k (c :: s)) eqn:E; [|congruence].
      injection H0 as _ <-. by apply Hk in E. }
    destruct (p c); [|by eapply Hhere].
    destruct (greedyStar p k s) as [[cap' rest']|]; [|by eapply Hhere].
    injection H as _ <-. specialize (IH _ eq_refl). simpl. lia.
Qed.

Lemma lit_le l s r : lit l s = Some r -> (length r <= length s)%nat.
Proof. intros H%lit_length. lia. Qed.

Lemma boldRe_consuming : consuming boldRe.
Proof.
  intros s cap rest H. unfold boldRe in H.
  destruct (lit [STAR; STAR] s) as [s1|] eqn:E; [|congruence].
  apply lit_length in E. apply lazyStar_length in H; [|apply lit_le].
  simpl in E. lia.
Qed.

Lemma italicRe_consuming : consuming italicRe.
Proof.
  intros s cap rest H. unfold italicRe in H.
  destruct (lit [STAR] s) as [s1|] eqn:E; [|congruence].
  apply lit_length in E. apply lazyStar_length in H; [|apply lit_le].
  simpl in E. lia.
Qed.

Lemma codeRe_consuming : consuming codeRe.
Proof.
  intros s cap rest H. unfold codeRe in H.
  destruct (lit [BACKTICK] s) as [s1|] eqn:E; [|congruence].
  apply lit_length in E. simpl in E.
  unfold greedyPlus in H. destruct s1 as [|c s1]; [congruence|].
  destruct (notBacktick c); [|congruence].
  destruct (greedyStar notBacktick (lit [BACKTICK]) s1) as [[cap' rest']|] eqn:G;
    [|congruence].
  injection H as _ <-. apply greedyStar_length in G; [|apply lit_le].
  simpl in E. lia.
Qed.

Lemma newlineRe_consuming : consuming newlineRe.
Proof.
  intros s cap rest H. unfold newlineRe in H.
  repeat match type of H with
  | match lit ?l s with _ => _ end = _ =>
      let E := fresh "E" in
      destruct (lit l s) eqn:E;
        [injection H as _ <-; apply lit_length in E; simpl in E; lia|]
  end.
  congruence.
Qed.

Lemma replaceFrom_fuel re template :
  consuming re ->
  forall n m s, (length s < n)%nat -> (length s < m)%nat ->
    replaceFrom n re template s = replaceFrom m re template s.
Proof.
  intros Hre. induction n as [|n IH]; intros m s Hn Hm; [lia|].
  destruct m as [|m]; [lia|]. simpl.
  destruct s as [|c s]; [done|].
  destruct (re (c :: s)) as [[cap rest]|] eqn:E.
  - apply Hre in E. f_equal. apply IH; simpl in *; lia.
  - f_equal. apply IH; simpl in *; lia.
Qed.

Lemma replaceAll_nil re template : replaceAll re template [] = [].
Proof. reflexivity. Qed.

(** The loop as the engine runs it, free of fuel. *)
Lemma replaceAll_cons re template c s :
  consuming re ->
  replaceAll re template (c :: s) =
    match re (c :: s) with
    | Some (cap, rest) => template cap ++ replaceAll re template rest
    | None => c :: replaceAll re template s
    end.
Proof.
  intros Hre. unfold replaceAll at 1. cbn [replaceFrom].
  destruct (re (c :: s)) as [[cap rest]|] eqn:E.
  - f_equal. apply Hre in E. unfold replaceAll.
    apply replaceFrom_fuel; simpl in *; [done|lia|lia].
  - reflexivity.
Qed.

(** Text on whose units the expression cannot start is copied. *)
Lemma replaceAll_copy re template x r :
  consuming re ->
  Forall (fun c => forall s, re (c :: s) = None) x ->
  replaceAll re template (x ++ r) = x ++ replaceAll re template r.
Proof.
  intros Hre. induction 1 as [|c x Hc _ IH]; [done|].
  simpl. rewrite replaceAll_cons, Hc, IH; done.
Qed.

Lemma replaceAll_id re template x :
  consuming re ->
  Forall (fun c => forall s, re (c :: s) = None) x ->
  replaceAll re template x = x.
Proof.
  intros Hre Hx. rewrite <- (app_nil_r x) at 1.
  rewrite replaceAll_copy, replaceAll_nil, app_nil_r; done.
Qed.

(** ** The formatter on text without markers *)

Lemma plain_inv c :
  plain c = true ->
  (c =? STAR) = false /\ (c =? BACKTICK) = false /\
  (c =? LF) = false /\ (c =? CR) = false /\ dot c = true.
Proof.
  unfold plain, dot, isLineTerminator.
  destruct (c =? STAR), (c =? BACKTICK), (c =? LF), (c =? CR); simpl;
    try discriminate; auto.
Qed.

Lemma lit_head_ne a l c s : (c =? a) = false -> lit (a :: l) (c :: s) = None.
Proof. intros H. cbn [lit]. rewrite N.eqb_sym in H. by rewrite H. Qed.

Lemma lit_head_eq a l s : lit (a :: l) (a :: s) = lit l s.
Proof. cbn [lit]. by rewrite N.eqb_refl. Qed.

Lemma boldRe_plain c s : plain c = true -> boldRe (c :: s) = None.
Proof.
  intros (H & _)%plain_inv. unfold boldRe. by rewrite lit_head_ne.
Qed.

Lemma italicRe_plain c s : plain c = true -> italicRe (c :: s) = None.
Proof.
  intros (H & _)%plain_inv. unfold italicRe. by rewrite lit_head_ne.
Qed.

Lemma codeRe_plain c s : plain c = true -> codeRe (c :: s) = None.
Proof.
  intros (_ & H & _)%plain_inv. unfold codeRe. by rewrite lit_head_ne.
Qed.

Lemma newlineRe_plain c s : plain c = true -> newlineRe (c :: s) = None.
Proof.
  intros (_ & _ & H1 & H2 & _)%plain_inv. unfold newlineRe.
  by rewrite !lit_head_ne.
Qed.

Lemma forallb_Forall_plain (P : N -> Prop) x :
  (forall c, plain c = true -> P c) -> forallb plain x = true -> Forall P x.
Proof.
  intros HP. induction x as [|c x IH]; simpl; [constructor|].
  intros [Hc Hx]%andb_true_iff. constructor; auto.
Qed.

Lemma replaceBold_plain x r :
  forallb plain x = true -> replaceBold (x ++ r) = x ++ replaceBold r.
Proof.
  intros Hx. apply replaceAll_copy; [apply boldRe_consuming|].
  eapply forallb_Forall_plain; [|done]. intros c Hc s. by apply boldRe_plain.
Qed.

Lemma replaceItalics_plain x r :
  forallb plain x = true -> replaceItalics (x ++ r) = x ++ replaceItalics r.
Proof.
  intros Hx. apply replaceAll_copy; [apply italicRe_consuming|].
  eapply forallb_Forall_plain; [|done]. intros c Hc s. by apply italicRe_plain.
Qed.

Lemma replaceCode_plain x r :
  forallb plain x = true -> replaceCode (x ++ r) = x ++ replaceCode r.
Proof.
  intros Hx. apply replaceAll_copy; [apply codeRe_consuming|].
  eapply forallb_Forall_plain; [|done]. intros c Hc s. by apply codeRe_plain.
Qed.

Lemma replaceNewlines_plain x r :
  forallb plain x = true -> replaceNewlines (x ++ r) = x ++ replaceNewlines r.
Proof.
  intros Hx. apply replaceAll_copy; [apply newlineRe_consuming|].
  eapply forallb_Forall_plain; [|done]. intros c Hc s. by apply newlineRe_plain.
Qed.

Lemma replaceBold_id x : forallb plain x = true -> replaceBold x = x.
Proof.
  intros Hx. rewrite <- (app_nil_r x) at 1.
  by rewrite replaceBold_plain, app_nil_r.
Qed.

Lemma replaceItalics_id x : forallb plain x = true -> replaceItalics x = x.
Proof.
  intros Hx. rewrite <- (app_nil_r x) at 1.
  by rewrite replaceItalics_plain, app_nil_r.
Qed.

Lemma replaceCode_id x : forallb plain x = true -> replaceCode x = x.
Proof.
  intros Hx. rewrite <- (app_nil_r x) at 1.
  by rewrite replaceCode_plain, app_nil_r.
Qed.

Lemma replaceNewlines_id x : forallb plain x = true -> replaceNewlines x = x.
Proof.
  intros Hx. rewrite <- (app_nil_r x) at 1.
  by rewrite replaceNewlines_plain, app_nil_r.
Qed.

(** Text without markers is displayed as it is. *)
Lemma formatter_plain x : forallb plain x = true -> formatter x = x.
Proof.
  intros Hx. unfold formatter.
  by rewrite replaceBold_id, replaceItalics_id, replaceCode_id,
    replaceNewlines_id.
Qed.

(** The lazy star runs over text without markers up to the next star. *)
Lemma lazyStar_plain d x r :
  forallb plain x = true ->
  lazyStar dot (lit (STAR :: d)) (x ++ r) =
    match lazyStar dot (lit (STAR :: d)) r with
    | Some (cap, rest) => Some (x ++ cap, rest)
    | None => None
    end.
Proof.
  induction x as [|c x IH]; simpl app.
  - intros _. by destruct (lazyStar _ _ r) as [[??]|].
  - intros [Hc Hx]%andb_true_iff. apply plain_inv in Hc as (Hs & _ & _ & _ & Hd).
    cbn [lazyStar]. rewrite lit_head_ne, Hd, IH by done.
    by destruct (lazyStar _ _ r) as [[??]|].
Qed.

(** A single star before plain text does not close a bold span: the
    lazy star of the bold expression takes it. *)
Lemma lazyStar_bold_single c r :
  plain c = true ->
  lazyStar dot (lit [STAR; STAR]) (STAR :: c :: r) =
    match lazyStar dot (lit [STAR; STAR]) (c :: r) with
    | Some (cap, rest) => Some (STAR :: cap, rest)
    | None => None
    end.
Proof.
  intros (Hs & _)%plain_inv.
  cbn [lazyStar]. rewrite lit_head_eq, (lit_head_ne STAR [] c r Hs).
  reflexivity.
Qed.

(** ** Spans of markers *)

Lemma lazyStar_close d r : lazyStar dot (lit d) (d ++ r) = Some ([], r).
Proof.
  assert (H : lit d (d ++ r) = Some r).
  { induction d as [|a d IH]; [done|]. simpl app. by rewrite lit_head_eq. }
  destruct d as [|a d]; destruct r as [|b r]; simpl app in *;
    cbn [lazyStar]; by rewrite H.
Qed.

Lemma lazyStar_close_end d : lazyStar dot (lit d) d = Some ([], []).
Proof. rewrite <- (app_nil_r d) at 2. apply lazyStar_close. Qed.

(** In [x*y*z**] with plain [x], non-empty plain [y] and [z], the lazy
    star of the bold expression stops at the closing pair only. *)
Lemma bold_capture x y z :
  forallb plain x = true -> forallb plain y = true -> forallb plain z = true ->
  y <> [] -> z <> [] ->
  lazyStar dot (lit [STAR; STAR]) (x ++ STAR :: y ++ STAR :: z ++ [STAR; STAR])
  = Some (x ++ STAR :: y ++ STAR :: z, []).
Proof.
  intros Hx Hy Hz Hy0 Hz0.
  destruct y as [|cy y]; [done|]. destruct z as [|cz z]; [done|].
  assert (Hcy : plain cy = true) by (simpl in Hy; by apply andb_true_iff in Hy as [? _]).
  assert (Hcz : plain cz = true) by (simpl in Hz; by apply andb_true_iff in Hz as [? _]).
  rewrite lazyStar_plain by done.
  rewrite <- app_comm_cons, lazyStar_bold_single by done.
  rewrite app_comm_cons, lazyStar_plain by done.
  rewrite <- app_comm_cons, lazyStar_bold_single by done.
  rewrite app_comm_cons, lazyStar_plain by done.
  rewrite lazyStar_close_end.
  by rewrite app_nil_r.
Qed.

Lemma italic_capture y r :
  forallb plain y = true ->
  lazyStar dot (lit [STAR]) (y ++ STAR :: r) = Some (y, r).
Proof.
  intros Hy. rewrite lazyStar_plain by done.
  change (STAR :: r) with ([STAR] ++ r).
  rewrite (lazyStar_close [STAR] r). by rewrite app_nil_r.
Qed.

Lemma greedyStar_code y r :
  forallb plain y = true ->
  greedyStar notBacktick (lit [BACKTICK]) (y ++ BACKTICK :: r) = Some (y, r).
Proof.
  induction y as [|c y IH]; simpl app.
  - intros _. cbn [greedyStar]. rewrite lit_head_eq.
    by replace (notBacktick BACKTICK) with false by done.
  - intros [Hc Hy]%andb_true_iff. cbn [greedyStar]. rewrite IH by done.
    apply plain_inv in Hc as (_ & Hb & _). unfold notBacktick. by rewrite Hb.
Qed.

Lemma tags_plain :
  forallb plain (u "<strong>") = true /\ forallb plain (u "</strong>") = true /\
  forallb plain (u "<em>") = true /\ forallb plain (u "</em>") = true /\
  forallb plain (u "<code>") = true /\ forallb plain (u "</code>") = true /\
  forallb plain (u "<br>") = true.
Proof. repeat split; reflexivity. Qed.

Lemma forallb_plain_app x y :
  forallb plain x = true -> forallb plain y = true -> forallb plain (x ++ y) = true.
Proof. intros Hx Hy. rewrite forallb_app. by rewrite Hx, Hy. Qed.

Lemma lit_nil s : lit [] s = Some s.
Proof. by destruct s. Qed.

Lemma boldRe_open s :
  boldRe (STAR :: STAR :: s) = lazyStar dot (lit [STAR; STAR]) s.
Proof. unfold boldRe. by rewrite !lit_head_eq, lit_nil. Qed.

Lemma italicRe_open s : italicRe (STAR :: s) = lazyStar dot (lit [STAR]) s.
Proof. unfold italicRe. by rewrite lit_head_eq, lit_nil. Qed.

Lemma codeRe_open s :
  codeRe (BACKTICK :: s) = greedyPlus notBacktick (lit [BACKTICK]) s.
Proof. unfold codeRe. by rewrite lit_head_eq, lit_nil. Qed.

(** [**x**] becomes a bold span and nothing else. *)
Lemma formatter_bold x :
  forallb plain x = true ->
  formatter (u "**" ++ x ++ u "**") = u "<strong>" ++ x ++ u "</strong>".
Proof.
  intros Hx. unfold formatter.
  assert (Hb : replaceBold (u "**" ++ x ++ u "**") = u "<strong>" ++ x ++ u "</strong>").
  { change (u "**") with [STAR; STAR]. unfold replaceBold. simpl app.
    rewrite replaceAll_cons by apply boldRe_consuming.
    rewrite boldRe_open, lazyStar_plain by done.
    rewrite lazyStar_close_end.
    by rewrite replaceAll_nil, !app_nil_r. }
  assert (Hp : forallb plain (u "<strong>" ++ x ++ u "</strong>") = true).
  { destruct tags_plain as (? & ? & _). by repeat apply forallb_plain_app. }
  by rewrite Hb, replaceItalics_id, replaceCode_id, replaceNewlines_id.
Qed.

(** [*x*] becomes an italic span and nothing else. *)
Lemma formatter_italic x :
  forallb plain x = true ->
  formatter (u "*" ++ x ++ u "*") = u "<em>" ++ x ++ u "</em>".
Proof.
  intros Hx.
  assert (Hi : replaceItalics (u "*" ++ x ++ u "*") = u "<em>" ++ x ++ u "</em>").
  { change (u "*") with [STAR]. unfold replaceItalics. simpl app.
    rewrite replaceAll_cons by apply italicRe_consuming.
    rewrite italicRe_open, italic_capture by done.
    by rewrite replaceAll_nil, !app_nil_r. }
  assert (Hb : replaceBold (u "*" ++ x ++ u "*") = u "*" ++ x ++ u "*").
  { change (u "*") with [STAR]. unfold replaceBold. simpl app.
    rewrite replaceAll_cons by apply boldRe_consuming.
    assert (E : boldRe (STAR :: x ++ [STAR]) = None).
    { unfold boldRe. rewrite lit_head_eq.
      destruct x as [|c x]; simpl app.
      - reflexivity.
      - simpl in Hx. apply andb_true_iff in Hx as [(Hs & _)%plain_inv _].
        by rewrite lit_head_ne. }
    rewrite E. f_equal.
    change (replaceAll boldRe strongTpl (x ++ [STAR])) with (replaceBold (x ++ [STAR])).
    rewrite replaceBold_plain by done. f_equal. }
  assert (Hp : forallb plain (u "<em>" ++ x ++ u "</em>") = true).
  { destruct tags_plain as (_ & _ & ? & ? & _). by repeat apply forallb_plain_app. }
  unfold formatter. by rewrite Hb, Hi, replaceCode_id, replaceNewlines_id.
Qed.

Lemma replaceBold_nostar x :
  forallb (fun c => negb (c =? STAR)) x = true -> replaceBold x = x.
Proof.
  intros Hx. apply replaceAll_id; [apply boldRe_consuming|].
  induction x as [|c x IH]; [constructor|].
  simpl in Hx. apply andb_true_iff in Hx as [Hc Hx]. constructor; [|auto].
  intros s. unfold boldRe. rewrite lit_head_ne; [done|].
  by destruct (c =? STAR).
Qed.

Lemma replaceItalics_nostar x :
  forallb (fun c => negb (c =? STAR)) x = true -> replaceItalics x = x.
Proof.
  intros Hx. apply replaceAll_id; [apply italicRe_consuming|].
  induction x as [|c x IH]; [constructor|].
  simpl in Hx. apply andb_true_iff in Hx as [Hc Hx]. constructor; [|auto].
  intros s. unfold italicRe. rewrite lit_head_ne; [done|].
  by destruct (c =? STAR).
Qed.

Lemma plain_nostar x :
  forallb plain x = true -> forallb (fun c => negb (c =? STAR)) x = true.
Proof.
  induction x as [|c x IH]; [done|]. simpl.
  intros [Hc Hx]%andb_true_iff. rewrite IH by done.
  apply plain_inv in Hc as (-> & _). done.
Qed.

(** [`x`] with non-empty [x] becomes a code span and nothing else. *)
Lemma formatter_code x :
  forallb plain x = true -> x <> [] ->
  formatter (u "`" ++ x ++ u "`") = u "<code>" ++ x ++ u "</code>".
Proof.
  intros Hx Hx0.
  assert (Hs : forallb (fun c => negb (c =? STAR)) (u "`" ++ x ++ u "`") = true).
  { rewrite !forallb_app, (plain_nostar x) by done. reflexivity. }
  assert (Hc : replaceCode (u "`" ++ x ++ u "`") = u "<code>" ++ x ++ u "</code>").
  { change (u "`") with [BACKTICK]. unfold replaceCode. simpl app.
    rewrite replaceAll_cons by apply codeRe_consuming.
    rewrite codeRe_open. destruct x as [|c x]; [done|].
    simpl in Hx. apply andb_true_iff in Hx as [Hc Hx].
    simpl app. unfold greedyPlus. rewrite greedyStar_code by done.
    apply plain_inv in Hc as (_ & Hb & _). unfold notBacktick at 1. rewrite Hb.
    simpl negb. cbv iota. by rewrite replaceAll_nil, !app_nil_r. }
  assert (Hp : forallb plain (u "<code>" ++ x ++ u "</code>") = true).
  { destruct tags_plain as (_ & _ & _ & _ & ? & ? & _).
    by repeat apply forallb_plain_app. }
  unfold formatter.
  by rewrite replaceBold_nostar, replaceItalics_nostar, Hc, replaceNewlines_id.
Qed.

(** An italic span inside a bold span: the bold pass takes the outer
    pairs and leaves the single stars to the italic pass. *)
Lemma formatter_nested x y z :
  forallb plain x = true -> forallb plain y = true -> forallb plain z = true ->
  y <> [] -> z <> [] ->
  formatter (u "**" ++ x ++ u "*" ++ y ++ u "*" ++ z ++ u "**")
  = u "<strong>" ++ x ++ u "<em>" ++ y ++ u "</em>" ++ z ++ u "</strong>".
Proof.
  intros Hx Hy Hz Hy0 Hz0.
  destruct tags_plain as (Hs1 & Hs2 & He1 & He2 & _).
  assert (Hb : replaceBold (u "**" ++ x ++ u "*" ++ y ++ u "*" ++ z ++ u "**")
               = u "<strong>" ++ x ++ STAR :: y ++ STAR :: z ++ u "</strong>").
  { change (u "**") with [STAR; STAR]. change (u "*") with [STAR].
    unfold replaceBold. simpl app.
    rewrite replaceAll_cons by apply boldRe_consuming.
    rewrite boldRe_open, bold_capture by done.
    rewrite replaceAll_nil, app_nil_r. unfold strongTpl.
    by rewrite <- !app_assoc, <- !app_comm_cons, <- !app_assoc. }
  assert (Hi : replaceItalics (u "<strong>" ++ x ++ STAR :: y ++ STAR :: z ++ u "</strong>")
               = u "<strong>" ++ x ++ u "<em>" ++ y ++ u "</em>" ++ z ++ u "</strong>").
  { rewrite !replaceItalics_plain by done. do 2 f_equal.
    unfold replaceItalics. rewrite replaceAll_cons by apply italicRe_consuming.
    rewrite italicRe_open, italic_capture by done.
    change (replaceAll italicRe emTpl) with replaceItalics.
    rewrite replaceItalics_id by by apply forallb_plain_app.
    unfold emTpl. by rewrite <- !app_assoc. }
  assert (Hp : forallb plain
      (u "<strong>" ++ x ++ u "<em>" ++ y ++ u "</em>" ++ z ++ u "</strong>") = true).
  { by repeat apply forallb_plain_app. }
  unfold formatter. by rewrite Hb, Hi, replaceCode_id, replaceNewlines_id.
Qed.

(** ** One send, step by step *)

Lemma snoc_lookup {A} (l : list A) x : (l ++ [x]) !! length l = Some x.
Proof. by apply list_lookup_middle. Qed.

Lemma snoc_insert {A} (l : list A) x y : <[length l := y]> (l ++ [x]) = l ++ [y].
Proof. rewrite insert_app_r_alt by lia. by rewrite Nat.sub_diag. Qed.

Lemma snoc_alter {A} (f : A -> A) (l : list A) x :
  alter f (length l) (l ++ [x]) = l ++ [f x].
Proof. rewrite alter_app_r_alt by lia. by rewrite Nat.sub_diag. Qed.

(** The synchronous prefix of a call that passes the guard. *)
Lemma sendMessage_begin_passes message p :
  passesGuard message p = true ->
  sendMessage_begin message p =
    Some (removeFile
            (set_promptValue []
               (set_messages (messages p ++ [userEntry (messageSent message p)])
                  (showLoading p))),
          partsSent message p).
Proof.
  unfold passesGuard, sendMessage_begin, partsSent, messageSent, renderMessage.
  destruct (truthy (trim message)), (attachedFile p) as [f|] eqn:E;
    simpl; try discriminate; intros _; rewrite ?E; reflexivity.
Qed.

Lemma sendMessage_begin_blocked message p :
  passesGuard message p = false -> sendMessage_begin message p = None.
Proof.
  unfold passesGuard, sendMessage_begin.
  destruct (truthy (trim message)), (attachedFile p); simpl;
    try discriminate; reflexivity.
Qed.

(** The page when the [try] block is entered. *)
Lemma sendMessage_begin_fields message p p1 contents :
  sendMessage_begin message p = Some (p1, contents) ->
  passesGuard message p = true /\
  contents = partsSent message p /\
  loading p1 = true /\ promptDisabled p1 = true /\ promptValue p1 = [] /\
  messages p1 = messages p ++ [userEntry (messageSent message p)] /\
  attachedFile p1 = None /\ fileInputFile p1 = None /\ filePreview p1 = None /\
  chat p1 = chat p /\ requests p1 = requests p /\
  fileChangeListener p1 = fileChangeListener p.
Proof.
  intros H. destruct (passesGuard message p) eqn:G.
  - rewrite sendMessage_begin_passes in H by done.
    injection H as <- <-. by repeat split.
  - rewrite sendMessage_begin_blocked in H by done. discriminate.
Qed.

(** A submit that passes the guard while a session exists. *)
Lemma step_submit_live w c :
  passesGuard (promptValue (page w)) (page w) = true ->
  chat (page w) = Some c ->
  exists p1,
    step w Submit = {| page := p1; sends := sends w ++ [Awaiting];
                       readers := readers w |} /\
    messages p1 = messages (page w)
                  ++ [userEntry (messageSent (promptValue (page w)) (page w))] /\
    requests p1 = requests (page w)
                  ++ [requestSent (promptValue (page w)) (page w)] /\
    loading p1 = true /\ promptDisabled p1 = true /\ promptValue p1 = [] /\
    attachedFile p1 = None /\ fileInputFile p1 = None /\ filePreview p1 = None /\
    chat p1 = Some c.
Proof.
  intros G C. eexists. split.
  - cbn [step]. unfold submit. rewrite sendMessage_begin_passes by done.
    cbn. rewrite C. reflexivity.
  - by repeat split.
Qed.

(** A submit that passes the guard while no session exists: the call
    on the undefined session throws inside the [try] block. *)
Lemma step_submit_dead w :
  passesGuard (promptValue (page w)) (page w) = true ->
  chat (page w) = None ->
  exists p1,
    step w Submit = {| page := p1; sends := sends w ++ [Settled];
                       readers := readers w |} /\
    messages p1 = messages (page w)
                  ++ [userEntry (messageSent (promptValue (page w)) (page w));
                      errorEntry undefinedChatMessage] /\
    requests p1 = requests (page w) /\
    loading p1 = false /\ promptDisabled p1 = false /\ promptValue p1 = [] /\
    attachedFile p1 = None /\ fileInputFile p1 = None /\ filePreview p1 = None /\
    chat p1 = None /\ fileChangeListener p1 = fileChangeListener (page w).
Proof.
  intros G C. eexists. split.
  - cbn [step]. unfold submit. rewrite sendMessage_begin_passes by done.
    cbn. rewrite C. reflexivity.
  - cbn. rewrite <- app_assoc. by repeat split.
Qed.

Lemma step_submit_blocked w :
  passesGuard (promptValue (page w)) (page w) = false -> step w Submit = w.
Proof.
  intros G. cbn [step]. unfold submit.
  by rewrite sendMessage_begin_blocked.
Qed.

Lemma step_resolved p S R :
  step {| page := p; sends := S ++ [Awaiting]; readers := R |} (Resolved (length S))
  = {| page := p;
       sends := S ++ [Streaming {| aiMessageElement := None; buffer := [] |}];
       readers := R |}.
Proof. cbn. by rewrite snoc_lookup, snoc_insert. Qed.

Lemma step_chunk p S R l text :
  step {| page := p; sends := S ++ [Streaming l]; readers := R |}
       (Chunk (length S) text)
  = {| page := (sendMessage_chunk text l p).1;
       sends := S ++ [Streaming (sendMessage_chunk text l p).2];
       readers := R |}.
Proof.
  cbn [step sends page readers]. rewrite snoc_lookup.
  destruct (sendMessage_chunk text l p) as [p' l']. by rewrite snoc_insert.
Qed.

Lemma step_exhausted p S R l :
  step {| page := p; sends := S ++ [Streaming l]; readers := R |}
       (Exhausted (length S))
  = {| page := sendMessage_finally p; sends := S ++ [Settled]; readers := R |}.
Proof. cbn. by rewrite snoc_lookup, snoc_insert. Qed.

Lemma step_throws_streaming p S R l error :
  step {| page := p; sends := S ++ [Streaming l]; readers := R |}
       (Throws (length S) error)
  = {| page := sendMessage_finally (sendMessage_catch error p);
       sends := S ++ [Settled]; readers := R |}.
Proof. cbn. by rewrite snoc_lookup, snoc_insert. Qed.

Lemma step_throws_awaiting p S R error :
  step {| page := p; sends := S ++ [Awaiting]; readers := R |}
       (Throws (length S) error)
  = {| page := sendMessage_finally (sendMessage_catch error p);
       sends := S ++ [Settled]; readers := R |}.
Proof. cbn. by rewrite snoc_lookup, snoc_insert. Qed.

(** The first chunk creates the AI entry and shows the chunk. *)
Lemma sendMessage_chunk_first text p :
  sendMessage_chunk text {| aiMessageElement := None; buffer := [] |} p
  = (set_messages (messages p ++ [aiEntry text]) p,
     {| aiMessageElement := Some (length (messages p)); buffer := text |}).
Proof.
  unfold sendMessage_chunk, renderMessage, setInnerHTML. cbn.
  by rewrite snoc_alter.
Qed.

(** A later chunk replaces what that entry shows. *)
Lemma sendMessage_chunk_next text b M e p :
  sendMessage_chunk text {| aiMessageElement := Some (length M); buffer := b |}
    (set_messages (M ++ [e]) p)
  = (set_messages
       (M ++ [{| cls := cls e; content := InnerHTML (formatter (b ++ text)) |}]) p,
     {| aiMessageElement := Some (length M); buffer := b ++ text |}).
Proof.
  unfold sendMessage_chunk, setInnerHTML. cbn.
  by rewrite snoc_alter.
Qed.

(** The chunks after the first. *)
Lemma run_later_chunks cs : forall b M p S R,
  run {| page := set_messages (M ++ [aiEntry b]) p;
         sends := S ++ [Streaming {| aiMessageElement := Some (length M);
                                     buffer := b |}];
         readers := R |}
      (map (Chunk (length S)) cs)
  = {| page := set_messages (M ++ [aiEntry (b ++ concat cs)]) p;
       sends := S ++ [Streaming {| aiMessageElement := Some (length M);
                                   buffer := b ++ concat cs |}];
       readers := R |}.
Proof.
  induction cs as [|c cs IH]; intros b M p S R.
  - cbn. by rewrite app_nil_r.
  - cbn [map run fold_left]. rewrite step_chunk, sendMessage_chunk_next.
    cbn [fst snd cls aiEntry]. fold (aiEntry (b ++ c)).
    unfold run in IH. rewrite IH. cbn [concat]. by rewrite app_assoc.
Qed.

(** A stream, from the moment it is handed over until its last chunk. *)
Lemma run_chunks cs p S R :
  run {| page := p;
         sends := S ++ [Streaming {| aiMessageElement := None; buffer := [] |}];
         readers := R |}
      (map (Chunk (length S)) cs)
  = match cs with
    | [] => {| page := p;
               sends := S ++ [Streaming {| aiMessageElement := None; buffer := [] |}];
               readers := R |}
    | _ :: _ =>
        {| page := set_messages (messages p ++ [aiEntry (concat cs)]) p;
           sends := S ++ [Streaming {| aiMessageElement := Some (length (messages p));
                                       buffer := concat cs |}];
           readers := R |}
    end.
Proof.
  destruct cs as [|c cs]; [done|].
  cbn [map run fold_left]. rewrite step_chunk, sendMessage_chunk_first.
  cbn [fst snd]. apply (run_later_chunks cs c (messages p) p S R).
Qed.

Lemma run_app w es1 es2 : run w (es1 ++ es2) = run (run w es1) es2.
Proof. apply fold_left_app. Qed.

Lemma run_cons w e es : run w (e :: es) = run (step w e) es.
Proof. reflexivity. Qed.

(** An undisturbed send up to any point of its stream: the transcript
    holds the user entry and, once a chunk has arrived, one AI entry
    showing everything received; the input is still disabled. *)
Lemma run_send_streaming w c cs :
  passesGuard (promptValue (page w)) (page w) = true ->
  chat (page w) = Some c ->
  exists pk l,
    run w (Submit :: Resolved (length (sends w)) :: map (Chunk (length (sends w))) cs)
    = {| page := pk; sends := sends w ++ [Streaming l]; readers := readers w |} /\
    messages pk = messages (page w)
                  ++ [userEntry (messageSent (promptValue (page w)) (page w))]
                  ++ aiEntries cs /\
    requests pk = requests (page w)
                  ++ [requestSent (promptValue (page w)) (page w)] /\
    loading pk = true /\ promptDisabled pk = true /\ promptValue pk = [] /\
    attachedFile pk = None /\ fileInputFile pk = None /\ filePreview pk = None.
Proof.
  intros G C.
  destruct (step_submit_live w c G C) as
    (p1 & E1 & Hm & Hr & Hl & Hd & Hv & Ha & Hi & Hp & _).
  rewrite !run_cons, E1, step_resolved, run_chunks.
  destruct cs as [|c0 cs]; do 2 eexists; (split; [reflexivity|]); cbn.
  - by repeat split.
  - rewrite Hm, <- app_assoc. by repeat split.
Qed.

(** An undisturbed send from the submit to its end. *)
Lemma run_send_live w c r :
  passesGuard (promptValue (page w)) (page w) = true ->
  chat (page w) = Some c ->
  exists pf,
    run w (sendScript (length (sends w)) r)
    = {| page := pf; sends := sends w ++ [Settled]; readers := readers w |} /\
    messages pf = messages (page w)
                  ++ [userEntry (messageSent (promptValue (page w)) (page w))]
                  ++ responseEntries r /\
    requests pf = requests (page w)
                  ++ [requestSent (promptValue (page w)) (page w)] /\
    loading pf = false /\ promptDisabled pf = false /\ promptValue pf = [] /\
    attachedFile pf = None /\ fileInputFile pf = None /\ filePreview pf = None.
Proof.
  intros G C. destruct r as [error|cs o]; unfold sendScript.
  - destruct (step_submit_live w c G C) as
      (p1 & E1 & Hm & Hr & Hl & Hd & Hv & Ha & Hi & Hp & _).
    rewrite run_cons, E1. cbn [run fold_left]. rewrite step_throws_awaiting.
    eexists. split; [reflexivity|]. cbn. rewrite Hm, <- app_assoc.
    by repeat split.
  - rewrite !app_comm_cons, run_app.
    destruct (run_send_streaming w c cs G C) as
      (pk & l & Ek & Hm & Hr & Hl & Hd & Hv & Ha & Hi & Hp).
    rewrite Ek. destruct o as [|error]; cbn [finish run fold_left].
    + rewrite step_exhausted. eexists. split; [reflexivity|]. cbn.
      rewrite Hm, app_nil_r. by repeat split.
    + rewrite step_throws_streaming. eexists. split; [reflexivity|]. cbn.
      rewrite Hm, <- !app_assoc. by repeat split.
Qed.

Lemma countAi_app l1 l2 : countAi (l1 ++ l2) = (countAi l1 + countAi l2)%nat.
Proof. unfold countAi. by rewrite List.filter_app, length_app. Qed.

Lemma countError_app l1 l2 :
  countError (l1 ++ l2) = (countError l1 + countError l2)%nat.
Proof. unfold countError. by rewrite List.filter_app, length_app. Qed.

Lemma aiEntries_cons c cs : aiEntries (c :: cs) = [aiEntry (concat (c :: cs))].
Proof. reflexivity. Qed.

(** ** Sends that overlap *)

Lemma sendMessage_chunk_fresh text b p :
  sendMessage_chunk text {| aiMessageElement := None; buffer := b |} p
  = (set_messages (messages p ++ [aiEntry (b ++ text)]) p,
     {| aiMessageElement := Some (length (messages p)); buffer := b ++ text |}).
Proof.
  unfold sendMessage_chunk, renderMessage, setInnerHTML. cbn.
  by rewrite snoc_alter.
Qed.

Lemma sendMessage_chunk_held text b h p :
  sendMessage_chunk text {| aiMessageElement := Some h; buffer := b |} p
  = (set_messages
       (alter (fun e => {| cls := cls e;
                           content := InnerHTML (formatter (b ++ text)) |})
              h (messages p)) p,
     {| aiMessageElement := Some h; buffer := b ++ text |}).
Proof. reflexivity. Qed.

(** The transcript grows and one send is replaced by one that holds no
    entry, or a send that holds none is added. *)
Lemma coherent_grow w w' extra :
  coherent w ->
  messages (page w') = messages (page w) ++ extra ->
  (sends w' = sends w \/
   exists s, handleOf s = None /\
     (sends w' = sends w ++ [s] \/ exists i, sends w' = <[i := s]> (sends w))) ->
  coherent w'.
Proof.
  intros [H1 H2] M S.
  assert (L : forall j sj h, sends w' !! j = Some sj -> handleOf sj = Some h ->
                             sends w !! j = Some sj).
  { intros j sj h Hj Hh. destruct S as [E|(s & Hs & [E|[i E]])];
      rewrite E in Hj; [done|..].
    - apply lookup_snoc_Some in Hj as [[_ ?]|[_ <-]]; [done|congruence].
    - apply list_lookup_insert_Some in Hj as [(_ & <- & _)|[_ ?]];
        [congruence|done]. }
  split.
  - intros j sj h Hj Hh. rewrite M. apply lookup_app_l_Some. eauto.
  - intros i j si sj h Hi Hj Hhi Hhj. eauto.
Qed.

Lemma step_coherent w e : coherent w -> coherent (step w e).
Proof.
  intros H.
  destruct e as [text| |f|r| |i|i text|i|i error]; cbn [step].
  - apply (coherent_grow w _ []); [done|by rewrite app_nil_r|by left].
  - unfold submit.
    destruct (sendMessage_begin _ _) as [[p1 contents]|] eqn:E; [|done].
    apply sendMessage_begin_fields in E as (_ & _ & _ & _ & _ & Hm & _).
    destruct (chat p1).
    + eapply (coherent_grow w _ [_]); [done|exact Hm|].
      right. exists Awaiting. split; [done|by left].
    + eapply (coherent_grow w _ [_; _]); [done|cbn; by rewrite Hm, <- app_assoc|].
      right. exists Settled. split; [done|by left].
  - apply (coherent_grow w _ []); [done|..].
    + cbn. rewrite app_nil_r.
      destruct (fileChangeListener (page w)); [|done].
      unfold handleFileChange. cbn. by destruct f.
    + left. cbn. destruct (fileChangeListener (page w)); [|done].
      unfold handleFileChange. cbn. by destruct f.
  - destruct (readers w !! r) as [[file|]|]; [|done..].
    apply (coherent_grow w _ []); [done| |by left].
    cbn. rewrite app_nil_r. unfold onloadend.
    by destruct (file_dataUrl file).
  - destruct (filePreview (page w)); [|done].
    apply (coherent_grow w _ []); [done|by rewrite app_nil_r|by left].
  - destruct (sends w !! i) as [[|l|]|]; try done.
    apply (coherent_grow w _ []); [done|by rewrite app_nil_r|].
    right. eexists. split; [|right; by eexists]. done.
  - destruct (sends w !! i) as [[|[[h|] b]|]|] eqn:Ei; try done.
    + rewrite sendMessage_chunk_held. destruct H as [H1 H2].
      pose proof (H1 i _ h Ei eq_refl) as Hh. cbn [bufferOf buffer] in Hh.
      split; cbn [page sends messages set_messages].
      * intros j sj h' Hj Hh'.
        apply list_lookup_insert_Some in Hj as [(<- & <- & _)|[Hne Hj]].
        -- cbn in Hh'. simplify_eq. rewrite list_lookup_alter_eq, Hh. done.
        -- rewrite list_lookup_alter_ne; [by eapply H1|].
           intros <-. apply Hne. by eapply (H2 i j).
      * intros j1 j2 s1 s2 h' Hj1 Hj2 Hh1 Hh2.
        apply list_lookup_insert_Some in Hj1 as [(<- & <- & _)|[Hn1 Hj1]];
          apply list_lookup_insert_Some in Hj2 as [(<- & <- & _)|[Hn2 Hj2]];
          try done.
        -- cbn in Hh1. simplify_eq. by eapply (H2 i j2).
        -- cbn in Hh2. simplify_eq. by eapply (H2 j1 i).
        -- by eapply H2.
    + rewrite sendMessage_chunk_fresh. destruct H as [H1 H2].
      split; cbn [page sends messages set_messages].
      * intros j sj h' Hj Hh'.
        apply list_lookup_insert_Some in Hj as [(<- & <- & _)|[Hne Hj]].
        -- cbn in Hh'. simplify_eq. apply snoc_lookup.
        -- apply lookup_app_l_Some. by eapply H1.
      * assert (Hlt : forall j sj h', sends w !! j = Some sj ->
                  handleOf sj = Some h' -> h' <> length (messages (page w))).
        { intros j sj h' Hj Hh' ->.
          pose proof (H1 _ _ _ Hj Hh') as Hm.
          apply lookup_lt_Some in Hm. lia. }
        intros j1 j2 s1 s2 h' Hj1 Hj2 Hh1 Hh2.
        apply list_lookup_insert_Some in Hj1 as [(<- & <- & _)|[Hn1 Hj1]];
          apply list_lookup_insert_Some in Hj2 as [(<- & <- & _)|[Hn2 Hj2]];
          try done.
        -- cbn in Hh1. simplify_eq. by destruct (Hlt _ _ _ Hj2 Hh2).
        -- cbn in Hh2. simplify_eq. by destruct (Hlt _ _ _ Hj1 Hh1).
        -- by eapply H2.
  - destruct (sends w !! i) as [[|l|]|]; try done.
    apply (coherent_grow w _ []); [done|by rewrite app_nil_r|].
    right. exists Settled. split; [done|right; by eexists].
  - destruct (sends w !! i) as [[|l|]|]; try done.
    + apply (coherent_grow w _ [errorEntry (thrownText error)]); [done| |].
      * by destruct error.
      * right. exists Settled. split; [done|right; by eexists].
    + apply (coherent_grow w _ [errorEntry (thrownText error)]); [done| |].
      * by destruct error.
      * right. exists Settled. split; [done|right; by eexists].
Qed.

(** However sends, file events and edits interleave, a send that has
    created its AI entry finds there the rendering of everything it has
    received. *)
Lemma run_coherent apiKey dom es : coherent (run (boot apiKey dom) es).
Proof.
  induction es as [|e es IH] using rev_ind.
  - split; intros i; intros; by destruct i.
  - rewrite run_app. by apply step_coherent.
Qed.

(** A chunk extends what its send has received and leaves it holding an
    entry. *)
Lemma step_chunk_received w i l text :
  sends w !! i = Some (Streaming l) ->
  exists l',
    sends (step w (Chunk i text)) !! i = Some (Streaming l') /\
    buffer l' = buffer l ++ text /\ is_Some (aiMessageElement l').
Proof.
  intros E. cbn [step]. rewrite E.
  pose proof (lookup_lt_Some _ _ _ E) as Hlt.
  destruct l as [[h|] b].
  - rewrite sendMessage_chunk_held. eexists. cbn [sends].
    rewrite list_lookup_insert_eq by done. by repeat split.
  - rewrite sendMessage_chunk_fresh. eexists. cbn [sends].
    rewrite list_lookup_insert_eq by done. by repeat split.
Qed.

(** ** Streaming *)

(** C1.  A send whose stream yields at least one chunk creates exactly
    one AI entry, placed after the user entry.  After the [k]-th chunk
    that entry shows the formatter applied to the concatenation of the
    first [k] chunk texts, and it still does when the send has ended,
    whether the stream completed or failed.  For the chunks [Hel] and
    [lo!] the entry shows [Hel], then [Hello!], and [Hello!] at the
    end.  Also when sends overlap or other events come in between, a
    send that has created its entry finds there the formatter applied
    to all it has received. *)
Theorem stream_shows_received_text w c cs :
  passesGuard (promptValue (page w)) (page w) = true ->
  chat (page w) = Some c ->
  cs <> [] ->
  let i := length (sends w) in
  let before :=
    messages (page w)
    ++ [userEntry (messageSent (promptValue (page w)) (page w))] in
  (forall k, (1 <= k <= length cs)%nat ->
     messages (page (run w (Submit :: Resolved i :: map (Chunk i) (take k cs))))
     = before ++ [aiEntry (concat (take k cs))]) /\
  (forall o,
     messages (page (run w (sendScript i (Streams cs o))))
     = before ++ [aiEntry (concat cs)] ++ errorEntries o /\
     countAi (messages (page (run w (sendScript i (Streams cs o)))))
     = S (countAi (messages (page w)))) /\
  messages (page (run w [Submit; Resolved i; Chunk i (u "Hel")]))
  = before ++ [{| cls := AiMessage; content := InnerHTML (u "Hel") |}] /\
  messages (page (run w [Submit; Resolved i; Chunk i (u "Hel"); Chunk i (u "lo!")]))
  = before ++ [{| cls := AiMessage; content := InnerHTML (u "Hello!") |}] /\
  messages (page (run w [Submit; Resolved i; Chunk i (u "Hel"); Chunk i (u "lo!");
                         Exhausted i]))
  = before ++ [{| cls := AiMessage; content := InnerHTML (u "Hello!") |}] /\
  (forall apiKey dom es j l h,
     sends (run (boot apiKey dom) es) !! j = Some (Streaming l) ->
     aiMessageElement l = Some h ->
     messages (page (run (boot apiKey dom) es)) !! h = Some (aiEntry (buffer l))).
Proof.
  intros G C Hcs i before.
  assert (Hk : forall ds, ds <> [] ->
    messages (page (run w (Submit :: Resolved i :: map (Chunk i) ds)))
    = before ++ [aiEntry (concat ds)]).
  { intros ds Hds.
    destruct (run_send_streaming w c ds G C) as (pk & l & E & Hm & _).
    fold i in E. rewrite E. cbn [page]. rewrite Hm.
    destruct ds as [|d ds]; [done|]. by rewrite aiEntries_cons, app_assoc. }
  assert (Hf : forall ds o, ds <> [] ->
    messages (page (run w (sendScript i (Streams ds o))))
    = before ++ [aiEntry (concat ds)] ++ errorEntries o).
  { intros ds o Hds.
    destruct (run_send_live w c (Streams ds o) G C) as (pf & E & Hm & _).
    fold i in E. rewrite E. cbn [page]. rewrite Hm. cbn [responseEntries].
    destruct ds as [|d ds]; [done|]. by rewrite aiEntries_cons, app_assoc. }
  split; [|split; [|split; [|split; [|split]]]].
  - intros k [Hk1 Hk2]. apply Hk.
    destruct cs as [|c0 cs]; [done|]. destruct k; [lia|]. done.
  - intros o. rewrite Hf by done. split; [done|].
    unfold before. rewrite !countAi_app.
    replace (countAi [userEntry _]) with 0%nat by reflexivity.
    replace (countAi [aiEntry _]) with 1%nat by reflexivity.
    replace (countAi (errorEntries o)) with 0%nat by by destruct o.
    lia.
  - apply (Hk [u "Hel"]). done.
  - apply (Hk [u "Hel"; u "lo!"]). done.
  - apply (Hf [u "Hel"; u "lo!"] Completes). done.
  - intros apiKey dom es j l h Hj Hh.
    destruct (run_coherent apiKey dom es) as [H1 _].
    apply (H1 j (Streaming l) h Hj Hh).
Qed.

Lemma stream_shows_received_text_witness :
  messages (page (run typedWorld
    [Submit; Resolved 0; Chunk 0 (u "Hel"); Chunk 0 (u "lo!"); Exhausted 0]))
  = messages (page typedWorld)
    ++ [userEntry (u "hi");
        {| cls := AiMessage; content := InnerHTML (u "Hello!") |}].
Proof.
  destruct (stream_shows_received_text typedWorld theChat [u "Hel"; u "lo!"])
    as (_ & _ & _ & _ & H & _); [reflexivity|reflexivity|discriminate|].
  exact H.
Defined.

(** C8.  A send whose stream completes without a single chunk creates
    no AI entry: the transcript gains the user entry and nothing else,
    and the input is enabled again. *)
Theorem empty_stream_leaves_no_ai_entry w c :
  passesGuard (promptValue (page w)) (page w) = true ->
  chat (page w) = Some c ->
  let pf := page (run w (sendScript (length (sends w)) (Streams [] Completes))) in
  messages pf = messages (page w)
                ++ [userEntry (messageSent (promptValue (page w)) (page w))] /\
  countAi (messages pf) = countAi (messages (page w)) /\
  promptDisabled pf = false /\ loading pf = false.
Proof.
  intros G C.
  destruct (run_send_live w c (Streams [] Completes) G C)
    as (pf & E & Hm & _ & Hl & Hd & _).
  cbn zeta. rewrite E. cbn [page]. cbn in Hm. rewrite Hm.
  repeat split; [|done..].
  rewrite countAi_app.
  replace (countAi [userEntry _]) with 0%nat by reflexivity. lia.
Qed.

Lemma empty_stream_leaves_no_ai_entry_witness :
  let pf := page (run typedWorld (sendScript 0 (Streams [] Completes))) in
  messages pf = messages (page typedWorld) ++ [userEntry (u "hi")] /\
  countAi (messages pf) = countAi (messages (page typedWorld)) /\
  promptDisabled pf = false /\ loading pf = false.
Proof.
  apply (empty_stream_leaves_no_ai_entry typedWorld theChat); reflexivity.
Defined.

(** ** Failures *)

(** The end of a failed send, shared by the statements below. *)
Lemma failed_send_end w c r error :
  passesGuard (promptValue (page w)) (page w) = true ->
  chat (page w) = Some c ->
  failure r = Some error ->
  let pf := page (run w (sendScript (length (sends w)) r)) in
  messages pf = messages (page w)
                ++ [userEntry (messageSent (promptValue (page w)) (page w))]
                ++ chunkEntries r ++ [errorEntry (thrownText error)] /\
  requests pf = requests (page w)
                ++ [requestSent (promptValue (page w)) (page w)] /\
  attachedFile pf = None /\ fileInputFile pf = None /\ filePreview pf = None.
Proof.
  intros G C F.
  destruct (run_send_live w c r G C) as (p' & E & Hm & Hr & _ & _ & _ & Ha & Hi & Hp).
  cbn zeta. rewrite E. cbn [page]. rewrite Hm.
  repeat split; try done.
  do 2 f_equal. destruct r as [e|cs [|e]]; cbn in F; by simplify_eq.
Qed.

(** C4.  When the call to the session or the iteration over its stream
    throws, the send appends exactly one error entry, after the user
    entry and the AI entry the stream may already have produced; for a
    thrown [Error] the entry reads [Error: ] followed by its message.
    The input is enabled again when the send has ended, by a failure or
    by the end of the stream, and the session has received one call
    from the send, not more.  With no session, the call throws before
    anything is submitted, with the same report. *)
Theorem failed_send_reports_once w r :
  passesGuard (promptValue (page w)) (page w) = true ->
  let i := length (sends w) in
  let m := messageSent (promptValue (page w)) (page w) in
  let pf := page (run w (sendScript i r)) in
  (forall c error,
     chat (page w) = Some c -> failure r = Some error ->
     messages pf = messages (page w) ++ [userEntry m] ++ chunkEntries r
                   ++ [errorEntry (thrownText error)] /\
     countError (messages pf) = S (countError (messages (page w)))) /\
  (forall message,
     errorEntry (thrownText (ErrorObject message))
     = {| cls := ErrorMessage; content := TextContent (u "Error: " ++ message) |}) /\
  (forall c,
     chat (page w) = Some c ->
     promptDisabled pf = false /\ loading pf = false /\
     requests pf = requests (page w)
                   ++ [requestSent (promptValue (page w)) (page w)]) /\
  (chat (page w) = None ->
     messages (page (step w Submit))
     = messages (page w) ++ [userEntry m; errorEntry undefinedChatMessage] /\
     countError (messages (page (step w Submit)))
     = S (countError (messages (page w))) /\
     promptDisabled (page (step w Submit)) = false /\
     loading (page (step w Submit)) = false /\
     requests (page (step w Submit)) = requests (page w)).
Proof.
  intros G i m pf. split; [|split; [|split]].
  - intros c error C F.
    destruct (run_send_live w c r G C) as (p' & E & Hm & _).
    subst pf. fold i in E. rewrite E. cbn [page]. rewrite Hm. fold m.
    assert (Hs : responseEntries r
                 = chunkEntries r ++ [errorEntry (thrownText error)]).
    { destruct r as [e|cs [|e]]; cbn in F; by simplify_eq. }
    assert (Hc : countError (chunkEntries r) = 0%nat).
    { destruct r as [e|[|d cs] o]; reflexivity. }
    rewrite Hs. split; [done|].
    rewrite !countError_app, Hc.
    replace (countError [userEntry m]) with 0%nat by reflexivity.
    replace (countError [errorEntry (thrownText error)]) with 1%nat
      by reflexivity.
    lia.
  - reflexivity.
  - intros c C.
    destruct (run_send_live w c r G C) as (p' & E & _ & Hr & Hl & Hd & _).
    subst pf. fold i in E. rewrite E. by cbn [page].
  - intros C.
    destruct (step_submit_dead w G C) as (p' & E & Hm & Hr & Hl & Hd & _).
    rewrite E. cbn [page]. rewrite Hm. repeat split; [|done..].
    rewrite countError_app. fold m.
    replace (countError [userEntry m; errorEntry undefinedChatMessage])
      with 1%nat by reflexivity.
    lia.
Qed.

Lemma failed_send_reports_once_witness :
  messages (page (run typedWorld
    (sendScript 0 (Streams [u "Hel"] (Fails (ErrorObject (u "quota exceeded")))))))
  = messages (page typedWorld)
    ++ [userEntry (u "hi"); aiEntry (u "Hel"); errorEntry (u "quota exceeded")].
Proof.
  destruct (failed_send_reports_once typedWorld
              (Streams [u "Hel"] (Fails (ErrorObject (u "quota exceeded")))))
    as (H & _); [reflexivity|].
  destruct (H theChat (ErrorObject (u "quota exceeded")))
    as (Hm & _); [reflexivity|reflexivity|].
  exact Hm.
Defined.

(** C10.  When a send that took an attachment along fails, the
    attachment is not put back: once the error entry is rendered the
    slot, the file input and the preview are all empty, so a retry
    submits its text alone, or nothing when there is no text. *)
Theorem failed_send_does_not_restore_attachment w c f r error :
  attachedFile (page w) = Some f ->
  chat (page w) = Some c ->
  failure r = Some error ->
  let pf := page (run w (sendScript (length (sends w)) r)) in
  last (requests pf)
  = Some {| parts := [InlineData (mimeType f) (data f);
                      TextPart (messageSent (promptValue (page w)) (page w))];
            slotAtCall := None; inputAtCall := None; previewAtCall := None |} /\
  last (messages pf) = Some (errorEntry (thrownText error)) /\
  attachedFile pf = None /\ fileInputFile pf = None /\ filePreview pf = None /\
  (forall t, truthy (trim t) = false -> sendMessage_begin t pf = None) /\
  (forall t, truthy (trim t) = true ->
     exists p1, sendMessage_begin t pf = Some (p1, [TextPart t])).
Proof.
  intros A C F pf.
  assert (G : passesGuard (promptValue (page w)) (page w) = true).
  { unfold passesGuard. rewrite A. apply orb_true_r. }
  destruct (failed_send_end w c r error G C F) as (Hm & Hr & Ha & Hi & Hp).
  fold pf in Hm, Hr, Ha, Hi, Hp.
  split; [|split; [|repeat split; try done]].
  - rewrite Hr, last_snoc. unfold requestSent, partsSent. by rewrite A.
  - rewrite Hm, !app_assoc. apply last_snoc.
  - intros t Ht. apply sendMessage_begin_blocked.
    unfold passesGuard. by rewrite Ht, Ha.
  - intros t Ht. eexists. rewrite sendMessage_begin_passes.
    + unfold partsSent, messageSent. rewrite Ha. reflexivity.
    + unfold passesGuard. by rewrite Ht.
Qed.

Lemma failed_send_does_not_restore_attachment_witness :
  let pf := page (run attachedWorld
                    (sendScript 0 (Rejects (ErrorObject (u "network down"))))) in
  last (messages pf) = Some (errorEntry (u "network down")) /\
  attachedFile pf = None /\ fileInputFile pf = None /\ filePreview pf = None.
Proof.
  destruct (failed_send_does_not_restore_attachment attachedWorld theChat
              {| mimeType := u "text/csv"; data := u "YSxiCjEsMgo=";
                 name := u "sales.csv" |}
              (Rejects (ErrorObject (u "network down")))
              (ErrorObject (u "network down")))
    as (_ & Hm & Ha & Hi & Hp & _); [reflexivity|reflexivity|reflexivity|].
  exact (conj Hm (conj Ha (conj Hi Hp))).
Defined.

(** ** The synchronous prefix of a send *)

(** C5.  Called with text that trims to nothing while a file is
    attached, [sendMessage] goes on with the message
    [Analyze this file: ] followed by the file's name: that string is
    what is rendered as the user entry (shown unchanged when the name
    holds no markers) and what is sent as the text part, after the
    file's inline data. *)
Theorem blank_text_names_the_file message p f :
  attachedFile p = Some f ->
  truthy (trim message) = false ->
  let named := u "Analyze this file: " ++ name f in
  (exists p1,
     sendMessage_begin message p
     = Some (p1, [InlineData (mimeType f) (data f); TextPart named]) /\
     messages p1 = messages p ++ [userEntry named]) /\
  (forallb plain (name f) = true ->
     userEntry named = {| cls := UserMessage; content := InnerHTML named |}) /\
  (forall w c,
     page w = p -> promptValue p = message -> chat p = Some c ->
     requests (page (step w Submit))
     = requests p
       ++ [{| parts := [InlineData (mimeType f) (data f); TextPart named];
              slotAtCall := None; inputAtCall := None; previewAtCall := None |}]).
Proof.
  intros A T named.
  assert (G : passesGuard message p = true).
  { unfold passesGuard. rewrite A. apply orb_true_r. }
  assert (M : messageSent message p = named).
  { unfold messageSent. by rewrite A, T. }
  assert (P : partsSent message p
              = [InlineData (mimeType f) (data f); TextPart named]).
  { unfold partsSent. by rewrite A, M. }
  split; [|split].
  - eexists. rewrite sendMessage_begin_passes, P, M by done. split; reflexivity.
  - intros Hn. unfold userEntry. rewrite formatter_plain; [done|].
    unfold named. by apply forallb_plain_app.
  - intros w c <- <- C.
    destruct (step_submit_live w c G C) as (p1 & E & _ & Hr & _).
    rewrite E. cbn [page]. rewrite Hr. unfold requestSent. by rewrite P.
Qed.

Lemma blank_text_names_the_file_witness :
  exists p1,
    sendMessage_begin [] (page attachedWorld)
    = Some (p1, [InlineData (u "text/csv") (u "YSxiCjEsMgo=");
                 TextPart (u "Analyze this file: sales.csv")]) /\
    messages p1 = messages (page attachedWorld)
                  ++ [userEntry (u "Analyze this file: sales.csv")].
Proof.
  destruct (blank_text_names_the_file [] (page attachedWorld)
              {| mimeType := u "text/csv"; data := u "YSxiCjEsMgo=";
                 name := u "sales.csv" |})
    as (H & _); [reflexivity|reflexivity|].
  exact H.
Defined.

(** C9.  Every call of [sendMessage] that passes the guard empties the
    file input and the preview before the session is called, whether or
    not a file was attached: a send of text alone resets them too. *)
Theorem send_resets_file_controls message p p1 contents :
  sendMessage_begin message p = Some (p1, contents) ->
  fileInputFile p1 = None /\ filePreview p1 = None /\ attachedFile p1 = None /\
  (attachedFile p = None -> contents = [TextPart message]) /\
  (forall w c,
     page w = p -> promptValue p = message -> chat p = Some c ->
     exists req,
       requests (page (step w Submit)) = requests p ++ [req] /\
       parts req = contents /\
       inputAtCall req = None /\ previewAtCall req = None /\
       slotAtCall req = None).
Proof.
  intros H.
  destruct (sendMessage_begin_fields _ _ _ _ H)
    as (G & -> & _ & _ & _ & _ & Ha & Hi & Hp & _).
  repeat split; try done.
  - intros A. unfold partsSent, messageSent. by rewrite A.
  - intros w c <- <- C.
    destruct (step_submit_live w c G C) as (p' & E & _ & Hr & _).
    rewrite E. cbn [page]. rewrite Hr. by eexists.
Qed.

Lemma send_resets_file_controls_witness :
  let p1 := removeFile
              (set_promptValue []
                 (set_messages (messages (page pickedWorld) ++ [userEntry (u "hi")])
                    (showLoading (page pickedWorld)))) in
  fileInputFile (page pickedWorld) = Some sampleFile /\
  attachedFile (page pickedWorld) = None /\
  sendMessage_begin (u "hi") (page pickedWorld) = Some (p1, [TextPart (u "hi")]) /\
  fileInputFile p1 = None /\ filePreview p1 = None.
Proof.
  intros p1.
  assert (H : sendMessage_begin (u "hi") (page pickedWorld)
              = Some (p1, [TextPart (u "hi")])) by (vm_compute; reflexivity).
  destruct (send_resets_file_controls _ _ _ _ H) as (Hi & Hp & _).
  split; [vm_compute; reflexivity|]. split; [vm_compute; reflexivity|].
  exact (conj H (conj Hi Hp)).
Defined.

(** C6, as the code has it.  A submit enters the sending state (input
    disabled, loading shown, user message rendered, prompt cleared)
    exactly when the submitted text still holds something after
    trimming or an attachment is pending.  A submit whose text trims to
    nothing, with no attachment pending, changes nothing at all: no
    entry, no call to the session, the input as it was. *)
Theorem submit_sends_iff_guard w :
  let p := page w in
  let text := promptValue p in
  ((truthy (trim text) = true \/ attachedFile p <> None) <->
   (exists p1 contents,
      sendMessage_begin text p = Some (p1, contents) /\
      promptDisabled p1 = true /\ loading p1 = true /\ promptValue p1 = [] /\
      messages p1 = messages p ++ [userEntry (messageSent text p)])) /\
  (truthy (trim text) = false -> attachedFile p = None -> step w Submit = w).
Proof.
  intros p text. split; [split|].
  - intros H.
    assert (G : passesGuard text p = true).
    { unfold passesGuard. destruct H as [->|H]; [done|].
      destruct (attachedFile p); [apply orb_true_r|done]. }
    do 2 eexists. rewrite sendMessage_begin_passes by done.
    by repeat split.
  - intros (p1 & contents & H & _).
    apply sendMessage_begin_fields in H as (G & _). unfold passesGuard in G.
    apply orb_true_iff in G as [G|G]; [by left|right].
    by destruct (attachedFile p).
  - intros T A. apply step_submit_blocked. unfold passesGuard.
    fold p text. by rewrite T, A.
Qed.

Lemma submit_sends_iff_guard_witness :
  step spaceWorld Submit = spaceWorld /\
  exists p1 contents,
    sendMessage_begin (u "hi") (page typedWorld) = Some (p1, contents) /\
    promptDisabled p1 = true /\ loading p1 = true /\ promptValue p1 = [] /\
    messages p1 = messages (page typedWorld) ++ [userEntry (u "hi")].
Proof.
  split.
  - apply (submit_sends_iff_guard spaceWorld); reflexivity.
  - apply (submit_sends_iff_guard typedWorld). left. reflexivity.
Defined.

(** C6 as stated fails: a prompt holding one space is not empty, and no
    attachment is pending, yet the submit changes nothing. *)
Lemma submit_of_blank_text_counterexample :
  promptValue (page spaceWorld) <> [] /\
  attachedFile (page spaceWorld) = None /\
  sendMessage_begin (promptValue (page spaceWorld)) (page spaceWorld) = None /\
  step spaceWorld Submit = spaceWorld.
Proof. repeat split. discriminate. Qed.

(** ** Invariants of the event machine *)

Lemma sendMessage_chunk_frame text l p :
  requests (sendMessage_chunk text l p).1 = requests p /\
  attachedFile (sendMessage_chunk text l p).1 = attachedFile p /\
  chat (sendMessage_chunk text l p).1 = chat p.
Proof. destruct l as [[h|] b]; by repeat split. Qed.

Lemma onloadend_frame file p :
  requests (onloadend file p) = requests p /\ chat (onloadend file p) = chat p.
Proof. unfold onloadend. destruct (file_dataUrl file); by repeat split. Qed.

(** A step leaves the calls received as they are or adds one, made
    after the clearing. *)
Lemma step_requests w e :
  requests (page (step w e)) = requests (page w) \/
  exists r, requests (page (step w e)) = requests (page w) ++ [r] /\
            madeAfterClearing r.
Proof.
  destruct e as [text| |f|r| |i|i text|i|i error]; cbn [step].
  - by left.
  - unfold submit.
    destruct (sendMessage_begin _ _) as [[p1 contents]|] eqn:E; [|by left].
    apply sendMessage_begin_fields in E
      as (_ & _ & _ & _ & _ & _ & Ha & Hi & Hp & _ & Hr & _).
    destruct (chat p1); [right|left].
    + eexists. cbn. rewrite Hr, Ha, Hi, Hp. by repeat split.
    + by cbn.
  - cbn. destruct (fileChangeListener (page w)); [|by left].
    unfold handleFileChange. cbn. destruct f; by left.
  - destruct (readers w !! r) as [[file|]|]; [|by left..].
    left. cbn. apply onloadend_frame.
  - destruct (filePreview (page w)); by left.
  - destruct (sends w !! i) as [[|l|]|]; by left.
  - destruct (sends w !! i) as [[|l|]|]; try by left.
    left. pose proof (sendMessage_chunk_frame text l (page w)) as (H & _).
    by destruct (sendMessage_chunk text l (page w)) as [p' l'].
  - destruct (sends w !! i) as [[|l|]|]; by left.
  - destruct (sends w !! i) as [[|l|]|]; by left.
Qed.

Lemma construct_requests apiKey dom : requests (construct apiKey dom) = [].
Proof. unfold construct. by destruct (keyPresent apiKey). Qed.

Lemma run_snoc w es e : run w (es ++ [e]) = step (run w es) e.
Proof. by rewrite run_app. Qed.

(** Every call the session ever receives was made after the clearing. *)
Lemma requests_made_after_clearing apiKey dom es :
  Forall madeAfterClearing (requests (page (run (boot apiKey dom) es))).
Proof.
  induction es as [|e es IH] using rev_ind.
  - cbn. rewrite construct_requests. constructor.
  - rewrite run_snoc.
    destruct (step_requests (run (boot apiKey dom) es) e) as [->|(r & -> & Hr)];
      [done|].
    apply Forall_app. split; [done|]. by constructor.
Qed.

Lemma step_input_submit p S R t c :
  chat p = Some c -> attachedFile p = None -> truthy (trim t) = true ->
  last (requests (page (run {| page := p; sends := S; readers := R |}
                            [Input t; Submit])))
  = Some {| parts := [TextPart t]; slotAtCall := None;
            inputAtCall := None; previewAtCall := None |}.
Proof.
  intros C A T.
  set (w1 := {| page := set_promptValue t p; sends := S; readers := R |}).
  change (run _ [Input t; Submit]) with (step w1 Submit).
  assert (G : passesGuard (promptValue (page w1)) (page w1) = true).
  { unfold passesGuard. change (promptValue (page w1)) with t. by rewrite T. }
  destruct (step_submit_live w1 c G C) as (p2 & E & _ & Hr & _).
  rewrite E. cbn [page]. rewrite Hr, last_snoc.
  unfold requestSent, partsSent, messageSent.
  change (attachedFile (page w1)) with (attachedFile p). by rewrite A.
Qed.

(** ** The attachment slot *)

(** C2.  In every world the page can reach, the attachment slot holds
    at most one file (a completed read puts its file in the place of
    whatever was there), and every call the session has received was
    made when the slot was already empty.  A call of [sendMessage] that
    passes the guard has cleared the slot when it reaches the session,
    so a send retried right afterwards submits its text alone. *)
Theorem attachment_cleared_before_call apiKey dom es :
  let w := run (boot apiKey dom) es in
  (length (attachments (page w)) <= 1)%nat /\
  (forall file dataUrl,
     file_dataUrl file = Some dataUrl ->
     attachments (onloadend file (page w))
     = [{| mimeType := file_type file; data := base64Of dataUrl;
           name := file_name file |}]) /\
  Forall madeAfterClearing (requests (page w)) /\
  (forall p1 contents,
     sendMessage_begin (promptValue (page w)) (page w) = Some (p1, contents) ->
     attachedFile p1 = None /\ attachedFile (page (step w Submit)) = None) /\
  (forall c t,
     chat (page w) = Some c -> truthy (trim t) = true ->
     last (requests (page (run w [Submit; Input t; Submit])))
     = Some {| parts := [TextPart t]; slotAtCall := None;
               inputAtCall := None; previewAtCall := None |}).
Proof.
  intros w. split; [|split; [|split; [|split]]].
  - unfold attachments. destruct (attachedFile (page w)); simpl; lia.
  - intros file dataUrl H. unfold attachments, onloadend. by rewrite H.
  - apply requests_made_after_clearing.
  - intros p1 contents H.
    pose proof (sendMessage_begin_fields _ _ _ _ H) as (G & _ & _ & _ & _ & _ & Ha & _).
    split; [done|]. cbn [step]. unfold submit. rewrite H.
    destruct (chat p1); cbn; done.
  - intros c t C T. rewrite run_cons.
    destruct (passesGuard (promptValue (page w)) (page w)) eqn:G.
    + destruct (step_submit_live w c G C)
        as (p1 & E & _ & _ & _ & _ & _ & Ha & _ & _ & C1).
      rewrite E. by apply (step_input_submit p1 _ _ t c).
    + rewrite step_submit_blocked by done.
      destruct w as [p S R]. apply (step_input_submit p S R t c); [done| |done].
      unfold passesGuard in G. cbn [page] in G.
      destruct (attachedFile p); [|done].
      by rewrite orb_true_r in G.
Qed.

Lemma attachment_cleared_before_call_witness :
  requests (page (run attachedWorld [Submit; Input (u "again"); Submit]))
  = [{| parts := [InlineData (u "text/csv") (u "YSxiCjEsMgo=");
                  TextPart (u "Analyze this file: sales.csv")];
        slotAtCall := None; inputAtCall := None; previewAtCall := None |};
     {| parts := [TextPart (u "again")];
        slotAtCall := None; inputAtCall := None; previewAtCall := None |}] /\
  last (requests (page (run attachedWorld [Submit; Input (u "again"); Submit])))
  = Some {| parts := [TextPart (u "again")]; slotAtCall := None;
            inputAtCall := None; previewAtCall := None |}.
Proof.
  split; [vm_compute; reflexivity|].
  destruct (attachment_cleared_before_call (Some (u "key")) blankPage
              [PickFile (Some sampleFile); LoadEnd 0%nat])
    as (_ & _ & _ & _ & H).
  apply (H theChat (u "again")); reflexivity.
Defined.

(** ** Loading without a key *)

Lemma boot_keyless apiKey dom :
  keyPresent apiKey = false -> keyless dom (boot apiKey dom).
Proof.
  intros K. unfold keyless, boot, construct. rewrite K. cbn.
  repeat split; try done.
  by exists [].
Qed.

Lemma settled_lookup (S : list Send) i s :
  Forall (eq Settled) S -> S !! i = Some s -> s = Settled.
Proof. intros H L. symmetry. by eapply (Forall_lookup_1 _ S i s). Qed.

Lemma step_keyless dom w e : keyless dom w -> keyless dom (step w e).
Proof.
  intros (C & Rq & A & L & S & Rd & tail & M & T).
  assert (Hsame : keyless dom w) by (repeat split; eauto).
  destruct e as [text| |f|r| |i|i text|i|i error]; cbn [step].
  - repeat split; eauto.
  - destruct (passesGuard (promptValue (page w)) (page w)) eqn:G.
    + destruct (step_submit_dead w G C)
        as (p1 & E & Hm & Hr & _ & _ & _ & Ha & _ & _ & Hc & Hl).
      change (submit w) with (step w Submit). rewrite E.
      repeat split; cbn [page sends readers]; try congruence.
      * apply Forall_app. split; [done|]. by repeat constructor.
      * eexists. rewrite Hm, M, <- !app_assoc. split; [reflexivity|].
        apply Forall_app. split; [done|].
        constructor; [by left|]. constructor; [by right|constructor].
    + change (submit w) with (step w Submit). by rewrite step_submit_blocked.
  - cbn. rewrite L. repeat split; eauto.
  - rewrite Rd. done.
  - destruct (filePreview (page w)); [|done]. repeat split; eauto.
  - destruct (sends w !! i) as [s|] eqn:E; [|done].
    by rewrite (settled_lookup _ _ _ S E).
  - destruct (sends w !! i) as [s|] eqn:E; [|done].
    by rewrite (settled_lookup _ _ _ S E).
  - destruct (sends w !! i) as [s|] eqn:E; [|done].
    by rewrite (settled_lookup _ _ _ S E).
  - destruct (sends w !! i) as [s|] eqn:E; [|done].
    by rewrite (settled_lookup _ _ _ S E).
Qed.

Lemma run_keyless dom es : forall w, keyless dom w -> keyless dom (run w es).
Proof.
  induction es as [|e es IH]; intros w H; [done|].
  rewrite run_cons. by apply IH, step_keyless.
Qed.

Lemma deadEntry_not_ai tail : Forall deadEntry tail -> countAi tail = 0%nat.
Proof.
  induction 1 as [|e tail He _ IH]; [done|].
  change (e :: tail) with ([e] ++ tail). rewrite countAi_app, IH.
  destruct He as [He| ->]; [|done].
  unfold countAi, isAi. cbn. by rewrite He.
Qed.

Lemma deadEntry_not_configError e : deadEntry e -> e <> configError.
Proof.
  intros [He| ->] H.
  - by rewrite H in He.
  - discriminate H.
Qed.

(** C7.  Loaded without a key, the constructor renders the
    configuration error, once, and stops: no session is created, no
    welcome message is rendered and the file listener is not installed.
    Whatever happens afterwards, no session comes to exist, the
    transcript gains neither an AI entry nor a second configuration
    error, nothing is ever submitted and no send is left in flight: a
    submit that passes the guard ends at once with the report of the
    failed call. *)
Theorem missing_key_halts apiKey dom es :
  keyPresent apiKey = false ->
  let w0 := boot apiKey dom in
  let w := run w0 es in
  (messages (page w0) = messages dom ++ [configError] /\
   chat (page w0) = None /\ fileChangeListener (page w0) = false) /\
  (chat (page w) = None /\ requests (page w) = [] /\
   attachedFile (page w) = None /\ Forall (eq Settled) (sends w)) /\
  (exists tail,
     messages (page w) = messages dom ++ [configError] ++ tail /\
     Forall (fun e => e <> configError) tail /\
     countAi tail = 0%nat) /\
  (passesGuard (promptValue (page w)) (page w) = true ->
   messages (page (step w Submit))
   = messages (page w)
     ++ [userEntry (messageSent (promptValue (page w)) (page w));
         errorEntry undefinedChatMessage] /\
   requests (page (step w Submit)) = [] /\
   sends (step w Submit) = sends w ++ [Settled]).
Proof.
  intros K w0 w.
  pose proof (run_keyless dom es w0 (boot_keyless apiKey dom K))
    as (C & Rq & A & L & S & Rd & tail & M & T).
  fold w in C, Rq, A, L, S, Rd, M.
  split; [|split; [|split]].
  - unfold w0, boot, construct. rewrite K. by cbn.
  - done.
  - exists tail. split; [done|]. split; [|by apply deadEntry_not_ai].
    eapply Forall_impl; [exact T|]. apply deadEntry_not_configError.
  - intros G.
    destruct (step_submit_dead w G C) as (p1 & E & Hm & Hr & _).
    rewrite E. cbn [page sends]. by rewrite Hm, Hr, Rq.
Qed.

Lemma missing_key_halts_witness :
  messages (page (run (boot None blankPage) [Input (u "hi"); Submit]))
  = [configError; userEntry (u "hi"); errorEntry undefinedChatMessage] /\
  requests (page (run (boot None blankPage) [Input (u "hi"); Submit])) = [].
Proof.
  destruct (missing_key_halts None blankPage [Input (u "hi")])
    as (_ & _ & _ & H); [reflexivity|].
  destruct H as (Hm & Hr & _); [reflexivity|].
  exact (conj Hm Hr).
Defined.

(** ** The formatter *)

Lemma replaceCode_nobacktick x :
  forallb (fun c => negb (c =? BACKTICK)) x = true -> replaceCode x = x.
Proof.
  intros Hx. apply replaceAll_id; [apply codeRe_consuming|].
  induction x as [|c x IH]; [constructor|].
  simpl in Hx. apply andb_true_iff in Hx as [Hc Hx]. constructor; [|auto].
  intros s. unfold codeRe. rewrite lit_head_ne; [done|].
  by destruct (c =? BACKTICK).
Qed.

Lemma plain_nobacktick x :
  forallb plain x = true -> forallb (fun c => negb (c =? BACKTICK)) x = true.
Proof.
  induction x as [|c x IH]; [done|]. simpl.
  intros [Hc Hx]%andb_true_iff. rewrite IH by done.
  apply plain_inv in Hc as (_ & -> & _). done.
Qed.

(** Each of the three line breaks between plain texts becomes one
    [<br>]; a carriage return followed by a line feed counts once. *)
Lemma formatter_newline x z nl :
  forallb plain x = true -> forallb plain z = true ->
  nl = [CR; LF] \/ nl = [LF] \/ nl = [CR] ->
  formatter (x ++ nl ++ z) = x ++ u "<br>" ++ z.
Proof.
  intros Hx Hz Hnl.
  assert (Hs : forallb (fun c => negb (c =? STAR)) (x ++ nl ++ z) = true).
  { rewrite !forallb_app, (plain_nostar x), (plain_nostar z) by done.
    by destruct Hnl as [->|[->| ->]]. }
  assert (Hb : forallb (fun c => negb (c =? BACKTICK)) (x ++ nl ++ z) = true).
  { rewrite !forallb_app, (plain_nobacktick x), (plain_nobacktick z) by done.
    by destruct Hnl as [->|[->| ->]]. }
  unfold formatter.
  rewrite replaceBold_nostar, replaceItalics_nostar, replaceCode_nobacktick by done.
  rewrite replaceNewlines_plain by done. f_equal.
  assert (Hre : newlineRe (nl ++ z) = Some (nl, z)).
  { destruct Hnl as [->|[->| ->]]; unfold newlineRe; simpl app.
    - by rewrite !lit_head_eq, lit_nil.
    - rewrite (lit_head_ne CR [LF] LF z) by done.
      by rewrite lit_head_eq, lit_nil.
    - destruct z as [|c z].
      + reflexivity.
      + simpl in Hz. apply andb_true_iff in Hz as [Hc _].
        apply plain_inv in Hc as (_ & _ & Hlf & _).
        rewrite lit_head_eq, (lit_head_ne LF [] c z Hlf).
        rewrite (lit_head_ne LF [] CR (c :: z)) by done.
        by rewrite lit_head_eq, lit_nil. }
  unfold replaceNewlines.
  destruct nl as [|n nl]; [by destruct Hnl as [?|[?|?]]|].
  simpl app in *. rewrite replaceAll_cons, Hre by apply newlineRe_consuming.
  change (replaceAll newlineRe brTpl z) with (replaceNewlines z).
  by rewrite replaceNewlines_id.
Qed.

(** C3.  The formatter is a function of its input alone: the four
    substitutions, bold, then italics, then inline code, then line
    breaks, each applied to the whole result of the one before; both
    [renderMessage] and the streaming loop display its result.  No
    marker is converted twice: around text without markers, a pair of
    double stars yields a bold span and nothing else, a pair of stars an
    italic span, a pair of backticks a code span, a line break one
    [<br>]; and single stars inside a pair of double stars yield italic
    markup inside bold markup, so [**a*b*c**] is rendered as
    [<strong>a<em>b</em>c</strong>]. *)
Theorem formatter_converts_each_marker_once x y z :
  forallb plain x = true -> forallb plain y = true -> forallb plain z = true ->
  y <> [] -> z <> [] ->
  (forall s,
     formatter s = replaceNewlines (replaceCode (replaceItalics (replaceBold s)))) /\
  (forall message sender p,
     messages (renderMessage message sender p).1
     = messages p ++ [{| cls := senderClass sender;
                         content := InnerHTML (formatter message) |}]) /\
  (forall text b M e p,
     messages (sendMessage_chunk text
                 {| aiMessageElement := Some (length M); buffer := b |}
                 (set_messages (M ++ [e]) p)).1
     = M ++ [{| cls := cls e; content := InnerHTML (formatter (b ++ text)) |}]) /\
  formatter (u "**" ++ x ++ u "**") = u "<strong>" ++ x ++ u "</strong>" /\
  formatter (u "*" ++ x ++ u "*") = u "<em>" ++ x ++ u "</em>" /\
  formatter (u "`" ++ y ++ u "`") = u "<code>" ++ y ++ u "</code>" /\
  formatter (x ++ [LF] ++ z) = x ++ u "<br>" ++ z /\
  formatter (x ++ [CR; LF] ++ z) = x ++ u "<br>" ++ z /\
  formatter (u "**" ++ x ++ u "*" ++ y ++ u "*" ++ z ++ u "**")
  = u "<strong>" ++ x ++ u "<em>" ++ y ++ u "</em>" ++ z ++ u "</strong>" /\
  formatter (u "**a*b*c**") = u "<strong>a<em>b</em>c</strong>".
Proof.
  intros Hx Hy Hz Hy0 Hz0.
  split; [reflexivity|]. split; [reflexivity|].
  split; [intros; by rewrite sendMessage_chunk_next|].
  split; [by apply formatter_bold|].
  split; [by apply formatter_italic|].
  split; [by apply formatter_code|].
  split; [apply formatter_newline; auto|].
  split; [apply formatter_newline; auto|].
  split; [by apply formatter_nested|].
  apply (formatter_nested (u "a") (u "b") (u "c")); done.
Qed.

Lemma formatter_converts_each_marker_once_witness :
  formatter (u "**a*b*c**") = u "<strong>a<em>b</em>c</strong>".
Proof.
  destruct (formatter_converts_each_marker_once (u "a") (u "b") (u "c"))
    as (_ & _ & _ & _ & _ & _ & _ & _ & H & _);
    [reflexivity|reflexivity|reflexivity|discriminate|discriminate|].
  exact H.
Defined.

(** * Further properties *)

(** ** The formatter on arbitrary text *)

Lemma markerFree_inv c :
  markerFree c = true ->
  (c =? STAR) = false /\ (c =? BACKTICK) = false /\
  (c =? LF) = false /\ (c =? CR) = false.
Proof.
  unfold markerFree.
  destruct (c =? STAR), (c =? BACKTICK), (c =? LF), (c =? CR); simpl;
    try discriminate; auto.
Qed.

Lemma replaceNewlines_nobreak x :
  forallb (fun c => negb (isBreak c)) x = true -> replaceNewlines x = x.
Proof.
  intros Hx. apply replaceAll_id; [apply newlineRe_consuming|].
  induction x as [|c x IH]; [constructor|].
  simpl in Hx. apply andb_true_iff in Hx as [Hc Hx]. constructor; [|auto].
  intros s. unfold newlineRe, isBreak in *.
  destruct (c =? LF) eqn:E1, (c =? CR) eqn:E2; try discriminate.
  by rewrite !lit_head_ne.
Qed.

Lemma markerFree_split x :
  forallb markerFree x = true ->
  forallb (fun c => negb (c =? STAR)) x = true /\
  forallb (fun c => negb (c =? BACKTICK)) x = true /\
  forallb (fun c => negb (isBreak c)) x = true.
Proof.
  induction x as [|c x IH]; [done|]. simpl.
  intros [Hc Hx]%andb_true_iff. destruct (IH Hx) as (-> & -> & ->).
  apply markerFree_inv in Hc as (-> & -> & H1 & H2).
  unfold isBreak. by rewrite H1, H2.
Qed.

(** X1.  Text that holds no star, no backtick, no line feed and no
    carriage return is displayed exactly as it is: the formatter
    changes nothing, so markup in the text reaches [innerHTML]
    unescaped, for user and AI entries alike. *)
Theorem marker_free_text_is_rendered_verbatim x :
  forallb markerFree x = true ->
  formatter x = x /\
  (forall sender p,
     messages (renderMessage x sender p).1
     = messages p ++ [{| cls := senderClass sender; content := InnerHTML x |}]) /\
  (forall p,
     (sendMessage_chunk x {| aiMessageElement := None; buffer := [] |} p).1
     = set_messages (messages p
                     ++ [{| cls := AiMessage; content := InnerHTML x |}]) p).
Proof.
  intros (Hs & Hb & Hn)%markerFree_split.
  assert (F : formatter x = x).
  { unfold formatter.
    by rewrite replaceBold_nostar, replaceItalics_nostar,
      replaceCode_nobacktick, replaceNewlines_nobreak. }
  split; [done|]. split.
  - intros sender p. unfold renderMessage. cbn [fst messages set_messages].
    fold (formatter x). by rewrite F.
  - intros p. rewrite sendMessage_chunk_first. unfold aiEntry. by rewrite F.
Qed.

Lemma marker_free_text_is_rendered_verbatim_witness :
  formatter (u "<img src=x onerror=alert(1)>") = u "<img src=x onerror=alert(1)>".
Proof.
  destruct (marker_free_text_is_rendered_verbatim
              (u "<img src=x onerror=alert(1)>")) as (H & _); [reflexivity|].
  exact H.
Defined.

(** What the line-break expression answers on a non-empty subject. *)
Lemma newlineRe_cases c s :
  match newlineRe (c :: s) with
  | Some (_, rest) => isBreak c = true /\ (length rest <= length s)%nat
  | None => isBreak c = false
  end.
Proof.
  unfold newlineRe, isBreak. cbn [lit].
  destruct (N.eqb_spec CR c) as [<-|H1].
  - destruct s as [|d s]; [cbn; split; [done|lia]|].
    destruct (LF =? d); cbn; split; try done; lia.
  - destruct (N.eqb_spec LF c) as [<-|H2]; [cbn; split; [done|lia]|].
    apply N.eqb_neq in H1, H2.
    rewrite N.eqb_sym in H1. rewrite N.eqb_sym in H2. by rewrite H1, H2.
Qed.

Lemma replaceNewlines_output n : forall s,
  (length s <= n)%nat ->
  forallb (fun c => negb (isBreak c)) (replaceNewlines s) = true.
Proof.
  induction n as [|n IH]; intros s Hn.
  - destruct s; [done|simpl in Hn; lia].
  - destruct s as [|c s]; [done|].
    unfold replaceNewlines. rewrite replaceAll_cons by apply newlineRe_consuming.
    pose proof (newlineRe_cases c s) as H.
    destruct (newlineRe (c :: s)) as [[cap rest]|].
    + destruct H as [_ Hl]. rewrite forallb_app.
      change (replaceAll newlineRe brTpl rest) with (replaceNewlines rest).
      rewrite IH by (simpl in Hn; lia). reflexivity.
    + cbn [forallb]. rewrite H.
      change (replaceAll newlineRe brTpl s) with (replaceNewlines s).
      rewrite IH by (simpl in Hn; lia). reflexivity.
Qed.

(** X2.  Whatever the text, what the formatter hands to [innerHTML]
    holds no line feed and no carriage return: every one of them has
    become a [<br>]. *)
Theorem formatter_output_has_no_line_break s :
  forallb (fun c => negb (isBreak c)) (formatter s) = true.
Proof. unfold formatter. by eapply replaceNewlines_output. Qed.

(** ** Markers without a partner, and markers that cross *)

Lemma lazyStar_plain_none d x :
  forallb plain x = true -> lazyStar dot (lit (STAR :: d)) x = None.
Proof.
  intros Hx. rewrite <- (app_nil_r x), lazyStar_plain by done. reflexivity.
Qed.

Lemma boldRe_single_star s :
  match s with [] => True | c :: _ => (c =? STAR) = false end ->
  boldRe (STAR :: s) = None.
Proof.
  intros H. unfold boldRe. rewrite lit_head_eq.
  destruct s as [|c s]; [done|]. by rewrite lit_head_ne.
Qed.

Lemma plain_head x :
  forallb plain x = true ->
  match x with [] => True | c :: _ => (c =? STAR) = false end.
Proof.
  destruct x as [|c x]; [done|]. simpl.
  by intros [(H & _)%plain_inv _]%andb_true_iff.
Qed.

(** X3.  A pair of stars that finds no closing pair on its line is not
    left alone: the italic pass takes its two stars for an empty
    italic span.  Before plain text, [**x] is rendered as
    [<em></em>x]. *)
Theorem unclosed_double_star_becomes_empty_italic x :
  forallb plain x = true ->
  formatter (u "**" ++ x) = u "<em></em>" ++ x.
Proof.
  intros Hx.
  assert (Hb : replaceBold (u "**" ++ x) = u "**" ++ x).
  { change (u "**") with [STAR; STAR]. unfold replaceBold. simpl app.
    rewrite replaceAll_cons by apply boldRe_consuming.
    rewrite boldRe_open, lazyStar_plain_none by done. f_equal.
    rewrite replaceAll_cons by apply boldRe_consuming.
    rewrite boldRe_single_star by by apply plain_head. f_equal.
    by apply replaceBold_id. }
  assert (Hi : replaceItalics (u "**" ++ x) = u "<em></em>" ++ x).
  { change (u "**") with [STAR; STAR]. unfold replaceItalics. simpl app.
    rewrite replaceAll_cons by apply italicRe_consuming.
    rewrite italicRe_open.
    change (STAR :: x) with ([STAR] ++ x). rewrite lazyStar_close.
    change (replaceAll italicRe emTpl x) with (replaceItalics x).
    by rewrite replaceItalics_id. }
  assert (Hp : forallb plain (u "<em></em>" ++ x) = true)
    by by apply forallb_plain_app.
  unfold formatter. by rewrite Hb, Hi, replaceCode_id, replaceNewlines_id.
Qed.

Lemma unclosed_double_star_becomes_empty_italic_witness :
  formatter (u "**bo") = u "<em></em>bo".
Proof.
  apply (unclosed_double_star_becomes_empty_italic (u "bo")). reflexivity.
Defined.

(** X4.  Three stars on either side of plain text give tags that
    cross: the bold pass closes on the first two of the closing stars,
    the italic pass then pairs the two stars left over, and [***x***]
    is rendered as [<strong><em>x</strong></em>]. *)
Theorem triple_star_tags_cross x :
  forallb plain x = true -> x <> [] ->
  formatter (u "***" ++ x ++ u "***") = u "<strong><em>" ++ x ++ u "</strong></em>".
Proof.
  intros Hx Hx0.
  destruct tags_plain as (Hs1 & Hs2 & He1 & He2 & _).
  assert (Hb : replaceBold (u "***" ++ x ++ u "***")
               = u "<strong>" ++ STAR :: x ++ u "</strong>" ++ [STAR]).
  { change (u "***") with [STAR; STAR; STAR]. unfold replaceBold. simpl app.
    rewrite replaceAll_cons by apply boldRe_consuming.
    rewrite boldRe_open.
    destruct x as [|c x]; [done|].
    assert (Hc : plain c = true)
      by (simpl in Hx; by apply andb_true_iff in Hx as [? _]).
    rewrite <- app_comm_cons, lazyStar_bold_single by done.
    rewrite app_comm_cons, lazyStar_plain by done.
    change [STAR; STAR; STAR] with ([STAR; STAR] ++ [STAR]).
    rewrite lazyStar_close. unfold strongTpl.
    replace (replaceAll boldRe strongTpl [STAR]) with [STAR] by reflexivity.
    by rewrite app_nil_r, <- !app_assoc. }
  assert (Hi : replaceItalics (u "<strong>" ++ STAR :: x ++ u "</strong>" ++ [STAR])
               = u "<strong><em>" ++ x ++ u "</strong></em>").
  { rewrite replaceItalics_plain by done.
    unfold replaceItalics. rewrite replaceAll_cons by apply italicRe_consuming.
    rewrite italicRe_open, app_assoc, italic_capture
      by by apply forallb_plain_app.
    rewrite replaceAll_nil, app_nil_r. unfold emTpl.
    by rewrite <- !app_assoc. }
  assert (Hp : forallb plain (u "<strong><em>" ++ x ++ u "</strong></em>") = true)
    by by repeat apply forallb_plain_app.
  unfold formatter. by rewrite Hb, Hi, replaceCode_id, replaceNewlines_id.
Qed.

Lemma triple_star_tags_cross_witness :
  formatter (u "***a***") = u "<strong><em>a</strong></em>".
Proof.
  apply (triple_star_tags_cross (u "a")); [reflexivity|discriminate].
Defined.

Lemma replaceBold_skip x r :
  forallb (fun c => negb (c =? STAR)) x = true ->
  replaceBold (x ++ r) = x ++ replaceBold r.
Proof.
  intros Hx. apply replaceAll_copy; [apply boldRe_consuming|].
  induction x as [|c x IH]; [constructor|].
  simpl in Hx. apply andb_true_iff in Hx as [Hc Hx]. constructor; [|auto].
  intros s. unfold boldRe. rewrite lit_head_ne; [done|].
  by destruct (c =? STAR).
Qed.

Lemma replaceItalics_skip x r :
  forallb (fun c => negb (c =? STAR)) x = true ->
  replaceItalics (x ++ r) = x ++ replaceItalics r.
Proof.
  intros Hx. apply replaceAll_copy; [apply italicRe_consuming|].
  induction x as [|c x IH]; [constructor|].
  simpl in Hx. apply andb_true_iff in Hx as [Hc Hx]. constructor; [|auto].
  intros s. unfold italicRe. rewrite lit_head_ne; [done|].
  by destruct (c =? STAR).
Qed.

Lemma replaceCode_span content :
  forallb plain content = true -> content <> [] ->
  replaceCode (BACKTICK :: content ++ [BACKTICK])
  = u "<code>" ++ content ++ u "</code>".
Proof.
  intros Hx Hx0. unfold replaceCode.
  rewrite replaceAll_cons by apply codeRe_consuming.
  rewrite codeRe_open. destruct content as [|c x]; [done|].
  simpl in Hx. apply andb_true_iff in Hx as [Hc Hx].
  simpl app. unfold greedyPlus. rewrite greedyStar_code by done.
  apply plain_inv in Hc as (_ & Hb & _). unfold notBacktick at 1. rewrite Hb.
  simpl negb. cbv iota. by rewrite replaceAll_nil, !app_nil_r.
Qed.

Lemma replaceNewlines_break x z :
  forallb plain x = true -> forallb plain z = true ->
  replaceNewlines (x ++ LF :: z) = x ++ u "<br>" ++ z.
Proof.
  intros Hx Hz. rewrite replaceNewlines_plain by done. f_equal.
  unfold replaceNewlines. rewrite replaceAll_cons by apply newlineRe_consuming.
  assert (Hre : newlineRe (LF :: z) = Some ([LF], z)).
  { unfold newlineRe. rewrite (lit_head_ne CR [LF] LF z) by done.
    by rewrite lit_head_eq, lit_nil. }
  rewrite Hre. change (replaceAll newlineRe brTpl z) with (replaceNewlines z).
  by rewrite replaceNewlines_id.
Qed.

(** X5.  Backticks do not shield their content from the passes that
    run before the code pass: a pair of stars between backticks still
    becomes an italic span, inside the code span. *)
Theorem code_span_does_not_shield_stars x y z :
  forallb plain x = true -> forallb plain y = true -> forallb plain z = true ->
  y <> [] ->
  formatter (u "`" ++ x ++ u "*" ++ y ++ u "*" ++ z ++ u "`")
  = u "<code>" ++ x ++ u "<em>" ++ y ++ u "</em>" ++ z ++ u "</code>".
Proof.
  intros Hx Hy Hz Hy0.
  destruct tags_plain as (_ & _ & He1 & He2 & _).
  change (u "`") with [BACKTICK]. change (u "*") with [STAR].
  assert (Hzs : forallb (fun c => negb (c =? STAR)) (z ++ [BACKTICK]) = true).
  { rewrite forallb_app, (plain_nostar z) by done. reflexivity. }
  assert (Hzh : match z ++ [BACKTICK] with
                | [] => True | c :: _ => (c =? STAR) = false end).
  { destruct z as [|c z]; [done|]. by apply (plain_head (c :: z)). }
  assert (Hyh : match y ++ [STAR] ++ z ++ [BACKTICK] with
                | [] => True | c :: _ => (c =? STAR) = false end).
  { destruct y as [|c y]; [done|]. by apply (plain_head (c :: y)). }
  assert (Hb : replaceBold ([BACKTICK] ++ x ++ [STAR] ++ y ++ [STAR] ++ z ++ [BACKTICK])
               = [BACKTICK] ++ x ++ [STAR] ++ y ++ [STAR] ++ z ++ [BACKTICK]).
  { rewrite (replaceBold_skip [BACKTICK]) by done. f_equal.
    rewrite replaceBold_plain by done. f_equal.
    unfold replaceBold. simpl app.
    rewrite replaceAll_cons by apply boldRe_consuming.
    rewrite boldRe_single_star by done. f_equal.
    change (replaceAll boldRe strongTpl) with replaceBold.
    rewrite replaceBold_plain by done. f_equal.
    unfold replaceBold. rewrite replaceAll_cons by apply boldRe_consuming.
    rewrite boldRe_single_star by done. f_equal.
    by apply replaceBold_nostar. }
  assert (Hi : replaceItalics ([BACKTICK] ++ x ++ [STAR] ++ y ++ [STAR] ++ z ++ [BACKTICK])
               = [BACKTICK] ++ (x ++ u "<em>" ++ y ++ u "</em>" ++ z) ++ [BACKTICK]).
  { rewrite (replaceItalics_skip [BACKTICK]) by done. f_equal.
    rewrite replaceItalics_plain by done. rewrite <- app_assoc. f_equal.
    unfold replaceItalics. simpl app.
    rewrite replaceAll_cons by apply italicRe_consuming.
    rewrite italicRe_open, italic_capture by done.
    change (replaceAll italicRe emTpl) with replaceItalics.
    rewrite replaceItalics_nostar by done.
    unfold emTpl. by rewrite <- !app_assoc. }
  assert (Hp : forallb plain (x ++ u "<em>" ++ y ++ u "</em>" ++ z) = true)
    by by repeat apply forallb_plain_app.
  assert (Hc : replaceCode ([BACKTICK] ++ (x ++ u "<em>" ++ y ++ u "</em>" ++ z)
                            ++ [BACKTICK])
               = u "<code>" ++ (x ++ u "<em>" ++ y ++ u "</em>" ++ z) ++ u "</code>").
  { apply replaceCode_span; [done|]. by destruct x. }
  unfold formatter. rewrite Hb, Hi, Hc.
  rewrite replaceNewlines_id.
  - by rewrite <- !app_assoc.
  - destruct tags_plain as (_ & _ & _ & _ & ? & ? & _).
    by repeat apply forallb_plain_app.
Qed.

Lemma code_span_does_not_shield_stars_witness :
  formatter (u "`a*b*c`") = u "<code>a<em>b</em>c</code>".
Proof.
  apply (code_span_does_not_shield_stars (u "a") (u "b") (u "c"));
    [reflexivity|reflexivity|reflexivity|discriminate].
Defined.

(** X6.  No span reaches across a line feed: the dot of the bold and
    italic expressions does not match one.  With the opening pair on
    one line and the closing pair on the next, nothing is made bold;
    each pair becomes an empty italic span and the line feed a
    [<br>]. *)
Theorem bold_does_not_cross_a_line_feed x y :
  forallb plain x = true -> forallb plain y = true ->
  formatter (u "**" ++ x ++ [LF] ++ y ++ u "**")
  = u "<em></em>" ++ x ++ u "<br>" ++ y ++ u "<em></em>".
Proof.
  intros Hx Hy.
  change (u "**") with [STAR; STAR].
  assert (Hxh : match x ++ [LF] ++ y ++ [STAR; STAR] with
                | [] => True | c :: _ => (c =? STAR) = false end).
  { destruct x as [|c x]; [done|]. by apply (plain_head (c :: x)). }
  assert (Hb : replaceBold ([STAR; STAR] ++ x ++ [LF] ++ y ++ [STAR; STAR])
               = [STAR; STAR] ++ x ++ [LF] ++ y ++ [STAR; STAR]).
  { unfold replaceBold. simpl app.
    rewrite replaceAll_cons by apply boldRe_consuming.
    rewrite boldRe_open, lazyStar_plain by done.
    replace (lazyStar dot (lit [STAR; STAR]) (LF :: y ++ [STAR; STAR]))
      with (@None (jsstring * jsstring)) by reflexivity.
    f_equal. rewrite replaceAll_cons by apply boldRe_consuming.
    rewrite boldRe_single_star by done. f_equal.
    change (replaceAll boldRe strongTpl) with replaceBold.
    rewrite replaceBold_plain by done. f_equal.
    change (LF :: y ++ [STAR; STAR]) with ([LF] ++ (y ++ [STAR; STAR])).
    rewrite (replaceBold_skip [LF] (y ++ [STAR; STAR])) by done.
    by rewrite replaceBold_plain. }
  assert (Hi : replaceItalics ([STAR; STAR] ++ x ++ [LF] ++ y ++ [STAR; STAR])
               = (u "<em></em>" ++ x) ++ LF :: (y ++ u "<em></em>")).
  { unfold replaceItalics. simpl app.
    rewrite replaceAll_cons by apply italicRe_consuming.
    rewrite italicRe_open.
    change (STAR :: x ++ LF :: y ++ [STAR; STAR])
      with ([STAR] ++ (x ++ LF :: y ++ [STAR; STAR])).
    rewrite lazyStar_close.
    change (replaceAll italicRe emTpl) with replaceItalics.
    rewrite replaceItalics_plain by done.
    change (LF :: y ++ [STAR; STAR]) with ([LF] ++ (y ++ [STAR; STAR])).
    rewrite (replaceItalics_skip [LF] (y ++ [STAR; STAR])) by done.
    rewrite replaceItalics_plain by done.
    replace (replaceItalics [STAR; STAR]) with (u "<em></em>") by reflexivity.
    unfold emTpl. by rewrite <- !app_assoc. }
  assert (Hc : forallb (fun c => negb (c =? BACKTICK))
                 ((u "<em></em>" ++ x) ++ LF :: (y ++ u "<em></em>")) = true).
  { rewrite !forallb_app. cbn [forallb].
    rewrite !forallb_app, (plain_nobacktick x), (plain_nobacktick y) by done.
    reflexivity. }
  unfold formatter. rewrite Hb, Hi, replaceCode_nobacktick by done.
  rewrite replaceNewlines_break by by apply forallb_plain_app.
  by rewrite <- !app_assoc.
Qed.

Lemma bold_does_not_cross_a_line_feed_witness :
  formatter (u "**a" ++ [LF] ++ u "b**") = u "<em></em>a<br>b<em></em>".
Proof.
  apply (bold_does_not_cross_a_line_feed (u "a") (u "b")); reflexivity.
Defined.

(** ** The guard and blank text *)

Lemma trimStart_blank s : forallb isTrimmed s = true -> trimStart s = [].
Proof.
  induction s as [|c s IH]; [done|]. simpl.
  intros [-> Hs]%andb_true_iff. auto.
Qed.

Lemma trimStart_keeps s :
  forallb isTrimmed s = false ->
  exists c s', trimStart s = c :: s' /\ isTrimmed c = false.
Proof.
  induction s as [|c s IH]; [done|]. simpl.
  destruct (isTrimmed c) eqn:E; simpl; [auto|]. intros _. by exists c, s.
Qed.

Lemma trimStart_snoc l c : isTrimmed c = false -> trimStart (l ++ [c]) <> [].
Proof.
  intros Hc. induction l as [|d l IH]; simpl.
  - by rewrite Hc.
  - by destruct (isTrimmed d).
Qed.

Lemma truthy_trim s : truthy (trim s) = negb (forallb isTrimmed s).
Proof.
  unfold trim, trimEnd. destruct (forallb isTrimmed s) eqn:E.
  - rewrite (trimStart_blank s) by done. reflexivity.
  - destruct (trimStart_keeps s E) as (c & s' & -> & Hc).
    simpl rev. pose proof (trimStart_snoc (rev s') c Hc) as H.
    destruct (trimStart (rev s' ++ [c])) as [|d l] eqn:E'; [done|].
    simpl. by destruct (rev l).
Qed.

(** X7.  The guard takes text for empty exactly when every code unit
    of it is white space or a line terminator.  With no attachment
    pending, a submit leaves the page as it is if and only if the
    prompt is blank in that sense; text with a single other character
    anywhere in it is sent. *)
Theorem submit_ignored_iff_prompt_blank w :
  attachedFile (page w) = None ->
  truthy (trim (promptValue (page w)))
  = negb (forallb isTrimmed (promptValue (page w))) /\
  (step w Submit = w <-> forallb isTrimmed (promptValue (page w)) = true).
Proof.
  intros A. split; [apply truthy_trim|].
  assert (G : passesGuard (promptValue (page w)) (page w)
              = negb (forallb isTrimmed (promptValue (page w)))).
  { unfold passesGuard. by rewrite A, truthy_trim, orb_false_r. }
  split.
  - intros E. destruct (forallb isTrimmed _); [done|].
    cbn [step] in E. unfold submit in E.
    rewrite sendMessage_begin_passes in E by done. cbn iota beta in E.
    assert (L : length (sends (submit w)) = S (length (sends w))).
    { unfold submit. rewrite sendMessage_begin_passes by done. cbn iota beta.
      destruct (chat _); cbn [sends]; rewrite length_app; simpl; lia. }
    unfold submit in L. rewrite sendMessage_begin_passes in L by done.
    cbn iota beta in L. rewrite E in L. lia.
  - intros B. apply step_submit_blocked. by rewrite G, B.
Qed.

Lemma submit_ignored_iff_prompt_blank_witness :
  step (run (boot (Some (u "key")) blankPage) [Input [32; 9; 10; 160]]) Submit
  = run (boot (Some (u "key")) blankPage) [Input [32; 9; 10; 160]].
Proof.
  apply (submit_ignored_iff_prompt_blank
           (run (boot (Some (u "key")) blankPage) [Input [32; 9; 10; 160]]));
    reflexivity.
Defined.

(** ** Reading the picked file *)

Lemma afterComma_first pre payload :
  forallb (fun c => negb (c =? COMMA)) pre = true ->
  afterComma (pre ++ COMMA :: payload) = Some payload.
Proof.
  induction pre as [|c pre IH]; simpl.
  - done.
  - intros [Hc Hp]%andb_true_iff. destruct (c =? COMMA); [done|auto].
Qed.

Lemma afterComma_none s :
  forallb (fun c => negb (c =? COMMA)) s = true -> afterComma s = None.
Proof.
  induction s as [|c s IH]; simpl; [done|].
  intros [Hc Hp]%andb_true_iff. destruct (c =? COMMA); [done|auto].
Qed.

(** X8.  From the data URL of a completed read the attachment keeps
    what follows the first comma, further commas included; a result
    without any comma is kept whole.  The attachment takes its name
    and type from the file. *)
Theorem attachment_payload_follows_first_comma pre payload :
  forallb (fun c => negb (c =? COMMA)) pre = true ->
  base64Of (pre ++ COMMA :: payload) = payload /\
  base64Of pre = pre /\
  (forall fname ftype p,
     attachedFile
       (onloadend {| file_name := fname; file_type := ftype;
                     file_dataUrl := Some (pre ++ COMMA :: payload) |} p)
     = Some {| mimeType := ftype; data := payload; name := fname |}).
Proof.
  intros H. unfold base64Of.
  rewrite afterComma_first, afterComma_none by done.
  repeat split. intros fname ftype p. unfold onloadend, base64Of. cbn.
  by rewrite afterComma_first.
Qed.

Lemma attachment_payload_follows_first_comma_witness :
  base64Of (u "data:text/csv;base64,YSxiCjEsMgo=") = u "YSxiCjEsMgo=".
Proof.
  apply (attachment_payload_follows_first_comma
           (u "data:text/csv;base64") (u "YSxiCjEsMgo=")).
  reflexivity.
Defined.

(** ** What one event does to the transcript and to the sends *)

(** An event appends to the transcript and leaves the sends, adds one
    or replaces one by a send that holds no entry; or it is a chunk for
    a send that holds an entry and rewrites that entry; or it is the
    first chunk of a send, which appends the entry the send then
    holds. *)
Lemma step_shape w e :
  (exists extra,
     messages (page (step w e)) = messages (page w) ++ extra /\
     (sends (step w e) = sends w \/
      exists s, handleOf s = None /\
        (sends (step w e) = sends w ++ [s] \/
         exists i, sends (step w e) = <[i := s]> (sends w)))) \/
  (exists i h b text,
     sends w !! i = Some (Streaming {| aiMessageElement := Some h; buffer := b |}) /\
     messages (page (step w e))
     = alter (fun el => {| cls := cls el;
                           content := InnerHTML (formatter (b ++ text)) |})
             h (messages (page w)) /\
     sends (step w e)
     = <[i := Streaming {| aiMessageElement := Some h; buffer := b ++ text |}]>
         (sends w)) \/
  (exists i b text,
     sends w !! i = Some (Streaming {| aiMessageElement := None; buffer := b |}) /\
     messages (page (step w e)) = messages (page w) ++ [aiEntry (b ++ text)] /\
     sends (step w e)
     = <[i := Streaming {| aiMessageElement := Some (length (messages (page w)));
                           buffer := b ++ text |}]> (sends w)).
Proof.
  assert (Same : forall w', messages (page w') = messages (page w) ->
            sends w' = sends w ->
            exists extra, messages (page w') = messages (page w) ++ extra /\
              (sends w' = sends w \/
               exists s, handleOf s = None /\
                 (sends w' = sends w ++ [s] \/
                  exists i, sends w' = <[i := s]> (sends w)))).
  { intros w' Hm Hs. exists []. rewrite app_nil_r. auto. }
  destruct e as [text| |f|r| |i|i text|i|i error]; cbn [step].
  - left. by apply Same.
  - left. unfold submit.
    destruct (sendMessage_begin _ _) as [[p1 contents]|] eqn:E;
      [|by apply Same].
    apply sendMessage_begin_fields in E as (_ & _ & _ & _ & _ & Hm & _).
    destruct (chat p1); cbn [page sends].
    + eexists [_]. split; [exact Hm|]. right. exists Awaiting. auto.
    + eexists [_; _]. split; [cbn; by rewrite Hm, <- app_assoc|].
      right. exists Settled. auto.
  - left. apply Same; cbn; destruct (fileChangeListener (page w)); try done;
      unfold handleFileChange; cbn; by destruct f.
  - left. destruct (readers w !! r) as [[file|]|]; [|by apply Same..].
    apply Same; [|done]. cbn. unfold onloadend.
    by destruct (file_dataUrl file).
  - left. destruct (filePreview (page w)); by apply Same.
  - left. destruct (sends w !! i) as [[|l|]|]; try by apply Same.
    exists []. rewrite app_nil_r. split; [done|].
    right. eexists. split; [|right; by eexists]. done.
  - destruct (sends w !! i) as [[|[[h|] b]|]|] eqn:Ei;
      try (left; by apply Same).
    + right. left. rewrite sendMessage_chunk_held. by exists i, h, b, text.
    + right. right. rewrite sendMessage_chunk_fresh. by exists i, b, text.
  - left. destruct (sends w !! i) as [[|l|]|]; try by apply Same.
    exists []. rewrite app_nil_r. split; [done|].
    right. exists Settled. split; [done|right; by eexists].
  - left. destruct (sends w !! i) as [[|l|]|]; try by apply Same.
    + exists [errorEntry (thrownText error)]. split; [by destruct error|].
      right. exists Settled. split; [done|right; by eexists].
    + exists [errorEntry (thrownText error)]. split; [by destruct error|].
      right. exists Settled. split; [done|right; by eexists].
Qed.

(** An entry that no send holds survives an event as it is, and still
    no send holds it. *)
Lemma step_keeps_unheld w e h el :
  messages (page w) !! h = Some el -> unheld h w ->
  messages (page (step w e)) !! h = Some el /\ unheld h (step w e).
Proof.
  intros Hm Hu. unfold unheld in *.
  destruct (step_shape w e) as
    [(extra & -> & Hs)|[(i & h' & b & text & Ei & -> & ->)
                       |(i & b & text & Ei & -> & ->)]].
  - split; [by apply lookup_app_l_Some|].
    intros j sj Hj. destruct Hs as [E|(s & Hn & [E|[i E]])]; rewrite E in Hj.
    + by eapply Hu.
    + apply lookup_snoc_Some in Hj as [[_ ?]|[_ <-]]; [by eapply Hu|congruence].
    + apply list_lookup_insert_Some in Hj as [(_ & <- & _)|[_ ?]];
        [congruence|by eapply Hu].
  - assert (h' <> h) by (intros ->; by eapply (Hu i)).
    split; [by rewrite list_lookup_alter_ne|].
    intros j sj Hj.
    apply list_lookup_insert_Some in Hj as [(_ & <- & _)|[_ ?]];
      [cbn; congruence|by eapply Hu].
  - split; [by apply lookup_app_l_Some|].
    intros j sj Hj.
    apply list_lookup_insert_Some in Hj as [(_ & <- & _)|[_ ?]];
      [|by eapply Hu].
    cbn. intros [= E]. apply lookup_lt_Some in Hm. lia.
Qed.

(** Any entry survives an event in its place and in its class. *)
Lemma step_keeps_class w e h el :
  messages (page w) !! h = Some el ->
  exists el', messages (page (step w e)) !! h = Some el' /\ cls el' = cls el.
Proof.
  intros Hm.
  destruct (step_shape w e) as
    [(extra & -> & _)|[(i & h' & b & text & _ & -> & _)
                      |(i & b & text & _ & -> & _)]].
  - exists el. split; [by apply lookup_app_l_Some|done].
  - destruct (decide (h' = h)) as [->|Hne].
    + eexists. rewrite list_lookup_alter_eq, Hm. by split.
    + exists el. by rewrite list_lookup_alter_ne.
  - exists el. split; [by apply lookup_app_l_Some|done].
Qed.

(** X9.  The transcript only grows and is never reordered: whatever
    events follow, every entry stays at its position with its class,
    and an entry that no send in flight holds (any user entry, any
    error entry, the welcome message, the AI entry of a send that has
    ended) keeps its content for good. *)
Theorem transcript_entries_are_stable w es h el :
  messages (page w) !! h = Some el ->
  (exists el', messages (page (run w es)) !! h = Some el' /\ cls el' = cls el) /\
  (length (messages (page w)) <= length (messages (page (run w es))))%nat /\
  (unheld h w -> messages (page (run w es)) !! h = Some el).
Proof.
  revert w el. induction es as [|e es IH]; intros w el Hm.
  - split; [by exists el|]. split; [cbn; lia|done].
  - rewrite run_cons.
    destruct (step_keeps_class w e h el Hm) as (el1 & Hm1 & Hc1).
    destruct (IH (step w e) el1 Hm1) as ((el' & He' & Hc') & Hl & _).
    split; [exists el'; split; [done|congruence]|]. split.
    + etrans; [|exact Hl].
      destruct (step_shape w e) as
        [(extra & -> & _)|[(i & h' & b & text & _ & -> & _)
                          |(i & b & text & _ & -> & _)]];
        rewrite ?length_app, ?length_alter; lia.
    + intros Hu. destruct (step_keeps_unheld w e h el Hm Hu) as [Hm2 Hu2].
      by apply (IH (step w e) el Hm2).
Qed.

Lemma transcript_entries_are_stable_witness :
  messages (page (run typedWorld
    (sendScript 0 (Streams [u "Hel"; u "lo!"] (Fails OtherValue))))) !! 0%nat
  = Some (aiEntry welcomeText).
Proof.
  destruct (transcript_entries_are_stable typedWorld
              (sendScript 0 (Streams [u "Hel"; u "lo!"] (Fails OtherValue)))
              0 (aiEntry welcomeText)) as (_ & _ & H); [reflexivity|].
  apply H. intros i s Hi. by destruct i.
Defined.

(** ** What reaches the session *)

Lemma step_requests_other w e :
  isSubmit e = false -> requests (page (step w e)) = requests (page w).
Proof.
  intros He.
  destruct e as [text| |f|r| |i|i text|i|i error]; cbn [step]; try done.
  - cbn. destruct (fileChangeListener (page w)); [|done].
    unfold handleFileChange. cbn. by destruct f.
  - destruct (readers w !! r) as [[file|]|]; [|done..].
    cbn. apply onloadend_frame.
  - by destruct (filePreview (page w)).
  - by destruct (sends w !! i) as [[|l|]|].
  - destruct (sends w !! i) as [[|l|]|]; try done.
    pose proof (sendMessage_chunk_frame text l (page w)) as (H & _).
    by destruct (sendMessage_chunk text l (page w)) as [p' l'].
  - by destruct (sends w !! i) as [[|l|]|].
  - by destruct (sends w !! i) as [[|l|]|].
Qed.

(** X10.  The session is called by submits and by nothing else: over
    any events the calls it has received grow by at most one per
    submit, each made after the attachment was cleared, and events
    without a submit among them (chunks, failures, file reads, edits,
    removals) leave the calls as they are. *)
Theorem session_is_called_only_by_submit w es :
  exists added,
    requests (page (run w es)) = requests (page w) ++ added /\
    (length added <= submits es)%nat /\
    Forall madeAfterClearing added /\
    (submits es = 0%nat -> added = []).
Proof.
  assert (H : exists added,
    requests (page (run w es)) = requests (page w) ++ added /\
    (length added <= submits es)%nat /\ Forall madeAfterClearing added).
  { revert w. induction es as [|e es IH]; intros w.
    - exists []. cbn. by rewrite app_nil_r.
    - rewrite run_cons. destruct (IH (step w e)) as (added & -> & Hl & Hf).
      destruct (isSubmit e) eqn:He.
      + assert (Hs : submits (e :: es) = S (submits es))
          by (unfold submits; cbn; by rewrite He).
        destruct (step_requests w e) as [->|(r & -> & Hr)].
        * exists added. repeat split; [lia|done].
        * exists (r :: added). rewrite <- app_assoc.
          repeat split; [simpl; lia|by constructor].
      + assert (Hs : submits (e :: es) = submits es)
          by (unfold submits; cbn; by rewrite He).
        rewrite step_requests_other by done.
        exists added. repeat split; [lia|done]. }
  destruct H as (added & E & Hl & Hf). exists added.
  repeat split; try done.
  intros Z. destruct added; [done|]. simpl in Hl. lia.
Qed.

Lemma session_is_called_only_by_submit_witness :
  requests (page (run (step typedWorld Submit)
    [Resolved 0; Chunk 0 (u "a"); Chunk 0 (u "b"); Exhausted 0;
     PickFile (Some sampleFile); LoadEnd 0; ClickRemove]))
  = requests (page (step typedWorld Submit)).
Proof.
  destruct (session_is_called_only_by_submit (step typedWorld Submit)
    [Resolved 0; Chunk 0 (u "a"); Chunk 0 (u "b"); Exhausted 0;
     PickFile (Some sampleFile); LoadEnd 0; ClickRemove])
    as (added & E & _ & _ & Z).
  rewrite (Z eq_refl), app_nil_r in E. exact E.
Defined.

(** ** Flags and preview *)

Lemma sendMessage_chunk_controls text l p :
  let p' := (sendMessage_chunk text l p).1 in
  loading p' = loading p /\ promptDisabled p' = promptDisabled p /\
  filePreview p' = filePreview p /\ attachedFile p' = attachedFile p.
Proof. destruct l as [[h|] b]; by repeat split. Qed.

Lemma step_previewInSync w e :
  previewInSync (page w) -> previewInSync (page (step w e)).
Proof.
  unfold previewInSync. intros H.
  destruct e as [text| |f|r| |i|i text|i|i error]; cbn [step]; try done.
  - unfold submit.
    destruct (sendMessage_begin _ _) as [[p1 contents]|] eqn:E; [|done].
    apply sendMessage_begin_fields in E
      as (_ & _ & _ & _ & _ & _ & Ha & _ & Hp & _).
    destruct (chat p1); cbn; by rewrite Ha, Hp.
  - cbn. destruct (fileChangeListener (page w)); [|done].
    unfold handleFileChange. cbn. by destruct f.
  - destruct (readers w !! r) as [[file|]|]; [|done..].
    cbn. unfold onloadend. destruct (file_dataUrl file); [|done].
    unfold renderFilePreview. by cbn.
  - destruct (filePreview (page w)) eqn:E; [by cbn|by rewrite E].
  - by destruct (sends w !! i) as [[|l|]|].
  - destruct (sends w !! i) as [[|l|]|]; try done.
    pose proof (sendMessage_chunk_controls text l (page w)) as (_ & _ & Hp & Ha).
    destruct (sendMessage_chunk text l (page w)) as [p' l']. cbn in *.
    by rewrite Hp, Ha.
  - by destruct (sends w !! i) as [[|l|]|].
  - by destruct (sends w !! i) as [[|l|]|].
Qed.

(** X11.  The preview and the attachment slot never part: once the
    preview shows the attached file's name, or nothing while nothing
    is attached, it does so after any events; this is the case from
    the moment the script is loaded on a page with an empty preview. *)
Theorem preview_follows_attachment w es :
  previewInSync (page w) ->
  previewInSync (page (run w es)) /\
  (forall apiKey dom es',
     filePreview dom = None ->
     previewInSync (page (run (boot apiKey dom) es'))).
Proof.
  assert (R : forall es w, previewInSync (page w) -> previewInSync (page (run w es))).
  { clear. induction es as [|e es IH]; intros w H; [done|].
    rewrite run_cons. by apply IH, step_previewInSync. }
  intros H. split; [by apply R|].
  intros apiKey dom es' Hd. apply R.
  assert (C : filePreview (construct apiKey dom) = filePreview dom /\
              attachedFile (construct apiKey dom) = None).
  { unfold construct. destruct (keyPresent apiKey); split; reflexivity. }
  destruct C as [Cp Ca]. unfold previewInSync. cbn [boot page].
  by rewrite Cp, Ca, Hd.
Qed.

Lemma preview_follows_attachment_witness :
  filePreview (page attachedWorld) = Some (u "sales.csv") /\
  previewInSync (page (run attachedWorld
                         [Input (u "what is in it?"); Submit; Throws 0 OtherValue])).
Proof.
  split; [reflexivity|].
  apply (preview_follows_attachment attachedWorld). reflexivity.
Defined.

Lemma step_flags w e :
  loading (page w) = promptDisabled (page w) ->
  loading (page (step w e)) = promptDisabled (page (step w e)).
Proof.
  intros H.
  destruct e as [text| |f|r| |i|i text|i|i error]; cbn [step]; try done.
  - unfold submit.
    destruct (sendMessage_begin _ _) as [[p1 contents]|] eqn:E; [|done].
    apply sendMessage_begin_fields in E as (_ & _ & Hl & Hd & _).
    destruct (chat p1); cbn; [by rewrite Hl, Hd|done].
  - cbn. destruct (fileChangeListener (page w)); [|done].
    unfold handleFileChange. cbn. by destruct f.
  - destruct (readers w !! r) as [[file|]|]; [|done..].
    cbn. unfold onloadend. by destruct (file_dataUrl file).
  - by destruct (filePreview (page w)).
  - by destruct (sends w !! i) as [[|l|]|].
  - destruct (sends w !! i) as [[|l|]|]; try done.
    pose proof (sendMessage_chunk_controls text l (page w)) as (Hl & Hd & _).
    destruct (sendMessage_chunk text l (page w)) as [p' l']. cbn in *.
    by rewrite Hl, Hd.
  - by destruct (sends w !! i) as [[|l|]|].
  - by destruct (sends w !! i) as [[|l|]|].
Qed.

(** X12.  The loading indicator and the disabled prompt go together:
    if the page shows the indicator exactly when the prompt is
    disabled, it still does after any events.  [showLoading] and
    [hideLoading] are the only writers of either, and each sets
    both. *)
Theorem loading_indicator_follows_disabled_prompt w es :
  loading (page w) = promptDisabled (page w) ->
  loading (page (run w es)) = promptDisabled (page (run w es)).
Proof.
  revert w. induction es as [|e es IH]; intros w H; [done|].
  rewrite run_cons. by apply IH, step_flags.
Qed.

Lemma loading_indicator_follows_disabled_prompt_witness :
  loading (page (run typedWorld [Submit; Resolved 0; Chunk 0 (u "a")])) = true /\
  promptDisabled (page (run typedWorld [Submit; Resolved 0; Chunk 0 (u "a")])) = true.
Proof.
  pose proof (loading_indicator_follows_disabled_prompt typedWorld
                [Submit; Resolved 0; Chunk 0 (u "a")] eq_refl) as H.
  split; [reflexivity|]. rewrite <- H. reflexivity.
Defined.

(** ** Reads that complete late *)

Lemma step_loadend w r f d :
  readers w !! r = Some (Some f) -> file_dataUrl f = Some d ->
  step w (LoadEnd r)
  = {| page := set_filePreview (Some (file_name f))
                 (set_attachedFile (Some (attachmentOf f d)) (page w));
       sends := sends w; readers := <[r := None]> (readers w) |}.
Proof.
  intros R D. cbn [step]. rewrite R. unfold onloadend. rewrite D.
  reflexivity.
Qed.

(** X13.  Reads do not queue: when two of them are in flight, the file
    whose read completes last is the one attached and previewed,
    whichever was picked last, and the file input keeps showing the
    selection it had. *)
Theorem last_completed_read_wins w r1 r2 f1 f2 d1 d2 :
  r1 <> r2 ->
  readers w !! r1 = Some (Some f1) -> readers w !! r2 = Some (Some f2) ->
  file_dataUrl f1 = Some d1 -> file_dataUrl f2 = Some d2 ->
  let w12 := run w [LoadEnd r1; LoadEnd r2] in
  let w21 := run w [LoadEnd r2; LoadEnd r1] in
  attachedFile (page w12) = Some (attachmentOf f2 d2) /\
  filePreview (page w12) = Some (file_name f2) /\
  fileInputFile (page w12) = fileInputFile (page w) /\
  attachedFile (page w21) = Some (attachmentOf f1 d1) /\
  filePreview (page w21) = Some (file_name f1) /\
  fileInputFile (page w21) = fileInputFile (page w).
Proof.
  intros Hne R1 R2 D1 D2 w12 w21. subst w12 w21.
  rewrite !run_cons.
  rewrite (step_loadend w r1 f1 d1), (step_loadend w r2 f2 d2) by done.
  rewrite (step_loadend _ r2 f2 d2)
    by (try done; cbn [readers]; by rewrite list_lookup_insert_ne).
  rewrite (step_loadend _ r1 f1 d1)
    by (try done; cbn [readers]; by rewrite list_lookup_insert_ne).
  by repeat split.
Qed.

Lemma last_completed_read_wins_witness :
  let w := run (boot (Some (u "key")) blankPage)
             [PickFile (Some sampleFile); PickFile (Some otherFile);
              LoadEnd 1; LoadEnd 0] in
  fileInputFile (page w) = Some otherFile /\
  attachedFile (page w)
  = Some {| mimeType := u "text/csv"; data := u "YSxiCjEsMgo=";
            name := u "sales.csv" |}.
Proof.
  destruct (last_completed_read_wins
              (run (boot (Some (u "key")) blankPage)
                 [PickFile (Some sampleFile); PickFile (Some otherFile)])
              0 1 sampleFile otherFile
              (u "data:text/csv;base64,YSxiCjEsMgo=")
              (u "data:text/plain;base64,aGk="))
    as (_ & _ & _ & Ha & _ & Hi);
    [discriminate|reflexivity|reflexivity|reflexivity|reflexivity|].
  split; [exact Hi|exact Ha].
Defined.

(** X14.  A send does not cancel a read in flight.  When the read of a
    picked file completes after a send has started, the file is
    attached then, although the send has emptied the file input, and
    the next submit, on the prompt the send has cleared, submits it
    under the default message. *)
Theorem read_completing_after_send_feeds_next_send w c r f d :
  passesGuard (promptValue (page w)) (page w) = true ->
  chat (page w) = Some c ->
  readers w !! r = Some (Some f) -> file_dataUrl f = Some d ->
  attachedFile (page (run w [Submit; LoadEnd r])) = Some (attachmentOf f d) /\
  filePreview (page (run w [Submit; LoadEnd r])) = Some (file_name f) /\
  fileInputFile (page (run w [Submit; LoadEnd r])) = None /\
  last (requests (page (run w [Submit; LoadEnd r; Submit])))
  = Some {| parts := [InlineData (file_type f) (base64Of d);
                      TextPart (u "Analyze this file: " ++ file_name f)];
            slotAtCall := None; inputAtCall := None; previewAtCall := None |}.
Proof.
  intros G C R D.
  destruct (step_submit_live w c G C)
    as (p1 & E & _ & _ & _ & _ & Hv & _ & Hi & _ & C1).
  rewrite !run_cons, E.
  rewrite (step_loadend _ r f d) by done. cbn [page sends readers].
  set (p2 := set_filePreview _ _).
  split; [done|]. split; [done|]. split; [done|].
  set (w2 := {| page := p2 |}).
  assert (G2 : passesGuard (promptValue (page w2)) (page w2) = true).
  { unfold passesGuard. apply orb_true_r. }
  destruct (step_submit_live w2 c G2 C1) as (p3 & E3 & _ & Hr & _).
  change (run (step w2 Submit) []) with (step w2 Submit).
  rewrite E3. cbn [page]. rewrite Hr, last_snoc.
  unfold requestSent, partsSent, messageSent. cbn [page w2 p2 attachedFile
    set_filePreview set_attachedFile promptValue].
  by rewrite Hv.
Qed.

Lemma read_completing_after_send_feeds_next_send_witness :
  attachedFile (page (run pickedWorld [Submit; LoadEnd 0]))
  = Some {| mimeType := u "text/csv"; data := u "YSxiCjEsMgo=";
            name := u "sales.csv" |} /\
  fileInputFile (page (run pickedWorld [Submit; LoadEnd 0])) = None.
Proof.
  destruct (read_completing_after_send_feeds_next_send pickedWorld theChat 0
              sampleFile (u "data:text/csv;base64,YSxiCjEsMgo="))
    as (Ha & _ & Hi & _); [reflexivity|reflexivity|reflexivity|reflexivity|].
  split; [exact Ha|exact Hi].
Defined.

(** ** Sends in flight together *)

Lemma middle_insert {A} (l k : list A) x y :
  <[length l := y]> (l ++ x :: k) = l ++ y :: k.
Proof. rewrite insert_app_r_alt by lia. by rewrite Nat.sub_diag. Qed.

(** X15.  The prompt is not held disabled until every send has ended:
    when a second send is submitted while the first is in flight, the
    end of the first enables the prompt and hides the indicator
    although the second still waits for its answer. *)
Theorem first_send_to_end_enables_prompt w c t :
  passesGuard (promptValue (page w)) (page w) = true ->
  chat (page w) = Some c ->
  truthy (trim t) = true ->
  let i := length (sends w) in
  let w' := run w [Submit; Input t; Submit; Resolved i; Exhausted i] in
  promptDisabled (page w') = false /\ loading (page w') = false /\
  sends w' = sends w ++ [Settled; Awaiting] /\
  length (requests (page w')) = S (S (length (requests (page w)))).
Proof.
  intros G C T i w'. subst w' i.
  destruct (step_submit_live w c G C) as (p1 & E1 & _ & Hr1 & _ & _ & _ & _ & _ & _ & C1).
  rewrite run_cons, E1, run_cons. cbn [step]. unfold set_page.
  cbn [page sends readers].
  set (w1 := {| page := set_promptValue t p1; sends := sends w ++ [Awaiting];
                readers := readers w |}).
  assert (G1 : passesGuard (promptValue (page w1)) (page w1) = true).
  { unfold passesGuard. change (promptValue (page w1)) with t. by rewrite T. }
  destruct (step_submit_live w1 c G1 C1) as (p2 & E2 & _ & Hr2 & _).
  rewrite run_cons, E2. cbn [sends readers w1].
  rewrite <- app_assoc. cbn [app].
  rewrite !run_cons. cbn [step sends page readers].
  rewrite list_lookup_middle by done. rewrite middle_insert.
  cbn [step sends page readers].
  rewrite list_lookup_middle by done. rewrite middle_insert.
  cbn [run fold_left page sends].
  repeat split.
  change (requests (sendMessage_finally p2)) with (requests p2).
  rewrite Hr2. change (requests (page w1)) with (requests p1). rewrite Hr1.
  rewrite !length_app. simpl. lia.
Qed.

Lemma first_send_to_end_enables_prompt_witness :
  let w' := run typedWorld
              [Submit; Input (u "and?"); Submit; Resolved 0; Exhausted 0] in
  promptDisabled (page w') = false /\ sends w' = [Settled; Awaiting].
Proof.
  destruct (first_send_to_end_enables_prompt typedWorld theChat (u "and?"))
    as (Hd & _ & Hs & _); [reflexivity|reflexivity|reflexivity|].
  split; [exact Hd|exact Hs].
Defined.

(** X16.  What a stream leaves in the transcript depends on the text
    it delivers, not on where the chunks are cut: two streams of at
    least one chunk each that deliver the same text and end the same
    way leave the same transcript.  A stream of one empty chunk still
    makes an AI entry, an empty one. *)
Theorem rendering_ignores_chunk_boundaries w c cs cs' o :
  passesGuard (promptValue (page w)) (page w) = true ->
  chat (page w) = Some c ->
  cs <> [] -> cs' <> [] -> concat cs = concat cs' ->
  let i := length (sends w) in
  messages (page (run w (sendScript i (Streams cs o))))
  = messages (page (run w (sendScript i (Streams cs' o)))) /\
  messages (page (run w (sendScript i (Streams [[]] o))))
  = messages (page w)
    ++ [userEntry (messageSent (promptValue (page w)) (page w));
        {| cls := AiMessage; content := InnerHTML [] |}]
    ++ errorEntries o.
Proof.
  intros G C H H' E i.
  assert (F : forall ds, ds <> [] ->
    messages (page (run w (sendScript i (Streams ds o))))
    = messages (page w)
      ++ [userEntry (messageSent (promptValue (page w)) (page w));
          aiEntry (concat ds)] ++ errorEntries o).
  { intros ds Hd.
    destruct (run_send_live w c (Streams ds o) G C) as (pf & Ef & Hm & _).
    fold i in Ef. rewrite Ef. cbn [page]. rewrite Hm. cbn [responseEntries].
    by destruct ds. }
  split.
  - by rewrite (F cs), (F cs'), E.
  - by rewrite (F [[]]).
Qed.

Lemma rendering_ignores_chunk_boundaries_witness :
  messages (page (run typedWorld
    (sendScript 0 (Streams [u "**bo"; u "ld**"] Completes))))
  = messages (page (run typedWorld
    (sendScript 0 (Streams [u "*"; u "*bold*"; u "*"] Completes)))).
Proof.
  destruct (rendering_ignores_chunk_boundaries typedWorld theChat
              [u "**bo"; u "ld**"] [u "*"; u "*bold*"; u "*"] Completes)
    as (H & _);
    [reflexivity|reflexivity|discriminate|discriminate|reflexivity|].
  exact H.
Defined.

(** ** Loading with a key *)

Lemma keyPresent_nonempty apiKey :
  keyPresent apiKey = true <-> exists k, apiKey = Some k /\ k <> [].
Proof.
  destruct apiKey as [[|c k]|]; cbn; split; try done.
  - by intros (k & [= <-] & ?).
  - intros _. by eexists.
  - by intros (k & ? & _).
Qed.

(** X17.  A session exists after loading exactly when the key is a
    non-empty string; an empty key counts as none.  With a key the
    constructor renders the welcome message, unchanged by the
    formatter, installs the file listener, calls nothing and leaves
    the prompt as the page had it; without one it renders the
    configuration error and, through [renderError], enables the
    prompt. *)
Theorem session_exists_iff_key_nonempty apiKey dom :
  (chat (construct apiKey dom) = Some theChat <->
   exists k, apiKey = Some k /\ k <> []) /\
  ((exists k, apiKey = Some k /\ k <> []) ->
   messages (construct apiKey dom)
   = messages dom ++ [{| cls := AiMessage; content := InnerHTML welcomeText |}] /\
   fileChangeListener (construct apiKey dom) = true /\
   requests (construct apiKey dom) = [] /\
   promptDisabled (construct apiKey dom) = promptDisabled dom /\
   loading (construct apiKey dom) = loading dom) /\
  (apiKey = None \/ apiKey = Some [] ->
   chat (construct apiKey dom) = None /\
   messages (construct apiKey dom) = messages dom ++ [configError] /\
   fileChangeListener (construct apiKey dom) = false /\
   promptDisabled (construct apiKey dom) = false /\
   loading (construct apiKey dom) = false).
Proof.
  split; [|split].
  - rewrite <- keyPresent_nonempty. unfold construct.
    destruct (keyPresent apiKey); split; try done.
  - intros K%keyPresent_nonempty. unfold construct. rewrite K.
    cbn [negb]. cbv iota. repeat split.
  - intros [->| ->]; by repeat split.
Qed.

Lemma session_exists_iff_key_nonempty_witness :
  chat (construct (Some (u "key")) blankPage) = Some theChat /\
  chat (construct (Some []) blankPage) = None.
Proof.
  destruct (session_exists_iff_key_nonempty (Some (u "key")) blankPage)
    as (H & _).
  destruct (session_exists_iff_key_nonempty (Some []) blankPage)
    as (_ & _ & H0).
  split.
  - apply H. exists (u "key"). split; [reflexivity|discriminate].
  - apply H0. by right.
Defined.

(** ** Text sent with and without a file *)

(** X18.  Text that is not blank is sent as typed, spaces around it
    included: trimming decides whether to send, not what.  With a file
    attached the parts are the file's inline data and then the text;
    the user entry shows the text alone and nothing of the file, and
    the slot is empty when the session is called. *)
Theorem text_is_sent_as_typed message p :
  truthy (trim message) = true ->
  exists p1,
    sendMessage_begin message p
    = Some (p1,
            match attachedFile p with
            | Some f => [InlineData (mimeType f) (data f); TextPart message]
            | None => [TextPart message]
            end) /\
    messages p1 = messages p ++ [userEntry message] /\
    attachedFile p1 = None.
Proof.
  intros T.
  assert (G : passesGuard message p = true)
    by (unfold passesGuard; by rewrite T).
  eexists. rewrite sendMessage_begin_passes by done.
  unfold partsSent, messageSent. rewrite T.
  destruct (attachedFile p); by repeat split.
Qed.

Lemma text_is_sent_as_typed_witness :
  exists p1,
    sendMessage_begin (u "  what is in it?  ") (page attachedWorld)
    = Some (p1, [InlineData (u "text/csv") (u "YSxiCjEsMgo=");
                 TextPart (u "  what is in it?  ")]) /\
    messages p1 = messages (page attachedWorld)
                  ++ [userEntry (u "  what is in it?  ")] /\
    attachedFile p1 = None.
Proof.
  apply (text_is_sent_as_typed (u "  what is in it?  ") (page attachedWorld)).
  reflexivity.
Defined.

(** ** Text in front of the first marker *)

Lemma replaceCode_skip x r :
  forallb (fun c => negb (c =? BACKTICK)) x = true ->
  replaceCode (x ++ r) = x ++ replaceCode r.
Proof.
  intros Hx. apply replaceAll_copy; [apply codeRe_consuming|].
  induction x as [|c x IH]; [constructor|].
  simpl in Hx. apply andb_true_iff in Hx as [Hc Hx]. constructor; [|auto].
  intros s. unfold codeRe. rewrite lit_head_ne; [done|].
  by destruct (c =? BACKTICK).
Qed.

Lemma replaceNewlines_skip x r :
  forallb (fun c => negb (isBreak c)) x = true ->
  replaceNewlines (x ++ r) = x ++ replaceNewlines r.
Proof.
  intros Hx. apply replaceAll_copy; [apply newlineRe_consuming|].
  induction x as [|c x IH]; [constructor|].
  simpl in Hx. apply andb_true_iff in Hx as [Hc Hx]. constructor; [|auto].
  intros s. unfold newlineRe, isBreak in *.
  destruct (c =? LF) eqn:E1, (c =? CR) eqn:E2; try discriminate.
  by rewrite !lit_head_ne.
Qed.

(** X19.  Text without markers in front of anything is passed through
    and has no part in how the rest is rendered: the formatter of
    [x] followed by [s] is [x] followed by the formatter of [s].  A
    stream that opens with such text shows it from the first chunk on
    and only extends what it shows. *)
Theorem marker_free_prefix_is_passed_through x s :
  forallb markerFree x = true ->
  formatter (x ++ s) = x ++ formatter s.
Proof.
  intros (Hs & Hb & Hn)%markerFree_split. unfold formatter.
  by rewrite replaceBold_skip, replaceItalics_skip, replaceCode_skip,
    replaceNewlines_skip.
Qed.

Lemma marker_free_prefix_is_passed_through_witness :
  formatter (u "Use SUM: " ++ u "`=SUM(A:A)`")
  = u "Use SUM: " ++ formatter (u "`=SUM(A:A)`").
Proof.
  apply (marker_free_prefix_is_passed_through (u "Use SUM: ")). reflexivity.
Defined.

(** ** Removing the attachment *)

(** X20.  A click on the remove button of the preview withdraws the
    file for good: slot, file input and preview are empty, the
    transcript and the session are untouched, a submit of a blank
    prompt is then ignored, and a submit of text sends the text
    alone. *)
Theorem remove_withdraws_the_file w n :
  filePreview (page w) = Some n ->
  let w1 := step w ClickRemove in
  attachedFile (page w1) = None /\ fileInputFile (page w1) = None /\
  filePreview (page w1) = None /\
  messages (page w1) = messages (page w) /\
  requests (page w1) = requests (page w) /\
  (forallb isTrimmed (promptValue (page w)) = true -> step w1 Submit = w1) /\
  (forall c t,
     chat (page w) = Some c -> truthy (trim t) = true ->
     last (requests (page (run w [ClickRemove; Input t; Submit])))
     = Some {| parts := [TextPart t]; slotAtCall := None;
               inputAtCall := None; previewAtCall := None |}).
Proof.
  intros P w1.
  assert (E : w1 = {| page := removeFile (page w); sends := sends w;
                      readers := readers w |}).
  { subst w1. cbn [step]. by rewrite P. }
  rewrite E. repeat split.
  - intros B. apply step_submit_blocked. unfold passesGuard.
    cbn [page removeFile promptValue attachedFile set_filePreview
         set_fileInputFile set_attachedFile].
    by rewrite truthy_trim, B.
  - intros c t C T. rewrite run_cons. fold w1. rewrite E.
    by apply (step_input_submit _ _ _ t c).
Qed.

Lemma remove_withdraws_the_file_witness :
  attachedFile (page (step attachedWorld ClickRemove)) = None /\
  step (step attachedWorld ClickRemove) Submit = step attachedWorld ClickRemove.
Proof.
  destruct (remove_withdraws_the_file attachedWorld (u "sales.csv"))
    as (Ha & _ & _ & _ & _ & Hs & _); [reflexivity|].
  split; [exact Ha|]. apply Hs. reflexivity.
Defined.
